(** * Species-name cleanup: [clean_species_name] of [clean_species_names.py]

    A shallow embedding of the name classifier and the properties of its
    specification.

    Python [str] values are modelled as [string]; a character is a code
    point below 256 (the Latin-1 block of Unicode), and the character
    classes used by [str.strip], [str.split], [str.isupper], [str.lower]
    and the [re] module are the ones CPython gives to these code points.
    [None] and NaN arguments are [None : option string]. *)

From Stdlib Require Import Bool Arith Lia List Ascii String.
Import ListNotations.

(** ** Characters *)

Module Char.

Definition between (lo hi : nat) (c : ascii) : bool :=
  (lo <=? nat_of_ascii c) && (nat_of_ascii c <=? hi).

(** [str.isspace] and the [\s] category of [re] on code points < 256:
    TAB..CR, FS..US, SPACE, NEL and NBSP. *)
Definition isspace (c : ascii) : bool :=
  between 9 13 c || between 28 32 c
  || (nat_of_ascii c =? 133) || (nat_of_ascii c =? 160).

(** [[a-z]] *)
Definition is_az (c : ascii) : bool := between 97 122 c.

(** [str.isupper] on one character: A-Z, and Latin-1 capitals
    (U+00C0..U+00DE without the multiplication sign U+00D7). *)
Definition isupper (c : ascii) : bool :=
  between 65 90 c || between 192 214 c || between 216 222 c.

(** [str.lower] on one character. *)
Definition lower (c : ascii) : ascii :=
  if isupper c then ascii_of_nat (nat_of_ascii c + 32) else c.

(** ASCII letters and digits, the characters [re] refuses or reinterprets
    after a backslash. *)
Definition is_ascii_alnum (c : ascii) : bool :=
  between 48 57 c || between 65 90 c || between 97 122 c.

(** One pattern letter against one subject character under
    [re.IGNORECASE]. *)
Definition eq_nocase (p c : ascii) : bool :=
  Ascii.eqb c p || Ascii.eqb (lower c) p.

End Char.

Local Open Scope string_scope.

(** ** Strings: [strip], [split], [lower], [join] *)

Definition nonempty (s : string) : bool :=
  match s with EmptyString => false | String _ _ => true end.

Fixpoint lstrip (s : string) : string :=
  match s with
  | EmptyString => EmptyString
  | String c s' => if Char.isspace c then lstrip s' else s
  end.

Fixpoint rstrip (s : string) : string :=
  match s with
  | EmptyString => EmptyString
  | String c s' =>
      match rstrip s' with
      | EmptyString => if Char.isspace c then EmptyString else String c EmptyString
      | r => String c r
      end
  end.

(** [s.strip()] *)
Definition strip (s : string) : string := rstrip (lstrip s).

(** [s.split()]: [cur] is the word being read. *)
Fixpoint split_from (cur : string) (s : string) : list string :=
  match s with
  | EmptyString => if nonempty cur then [cur] else []
  | String c s' =>
      if Char.isspace c
      then (if nonempty cur then cur :: split_from EmptyString s'
            else split_from EmptyString s')
      else split_from (cur ++ String c EmptyString) s'
  end.

Definition split (s : string) : list string := split_from EmptyString s.

(** [s.lower()] *)
Fixpoint lower (s : string) : string :=
  match s with
  | EmptyString => EmptyString
  | String c s' => String (Char.lower c) (lower s')
  end.

(** [' '.join(l)] *)
Definition join (l : list string) : string := String.concat " " l.

Fixpoint all_chars (p : ascii -> bool) (s : string) : bool :=
  match s with
  | EmptyString => true
  | String c s' => p c && all_chars p s'
  end.

(** ** Outcomes of a call *)

(** A Python call returns a value or raises; [Unmodelled] marks a regular
    expression that uses syntax outside the fragment of [re] embedded
    below, about which the model says nothing. *)
Inductive py (A : Type) : Type :=
| Returns (a : A)
| Raises
| Unmodelled.
Arguments Returns {A} a.
Arguments Raises {A}.
Arguments Unmodelled {A}.

Definition bind {A B : Type} (m : py A) (k : A -> py B) : py B :=
  match m with
  | Returns a => k a
  | Raises => Raises
  | Unmodelled => Unmodelled
  end.

Notation "x <- m ;; k" := (bind m (fun x => k))
  (at level 61, m at next level, right associativity).

(** ** The [re] module, as far as the genus patterns need it *)

(** [genus_value] is pasted unescaped into two patterns, so any pattern
    text can reach [re].  The fragment embedded here: ordinary characters,
    [.], [^], [\s], a backslash before a character that is no ASCII letter
    or digit, and one greedy [*], [+] or [?] after an atom. *)
Module Re.

Inductive atom : Type :=
| Lit (c : ascii)      (* LITERAL *)
| Any                  (* ANY: every character but the newline *)
| Space                (* CATEGORY_SPACE *)
| Begin.               (* AT_BEGINNING *)

Inductive quant : Type := One | Star | Plus | Opt.

Inductive tok : Type :=
| TAtom (a : atom)
| TRepeat (q : quant).

Definition item : Type := (atom * quant)%type.

Definition cons_tok (t : tok) (r : py (list tok)) : py (list tok) :=
  ts <- r ;; Returns (t :: ts).

(** The tokenizer of the pattern parser.  A backslash at the end of the
    pattern is "bad escape (end of pattern)". *)
Fixpoint tokenize (p : string) : py (list tok) :=
  match p with
  | EmptyString => Returns []
  | String "\" EmptyString => Raises
  | String "\" (String c p') =>
      if Ascii.eqb c "s" then cons_tok (TAtom Space) (tokenize p')
      else if Char.is_ascii_alnum c then Unmodelled
      else cons_tok (TAtom (Lit c)) (tokenize p')
  | String "." p' => cons_tok (TAtom Any) (tokenize p')
  | String "^" p' => cons_tok (TAtom Begin) (tokenize p')
  | String "*" p' => cons_tok (TRepeat Star) (tokenize p')
  | String "+" p' => cons_tok (TRepeat Plus) (tokenize p')
  | String "?" p' => cons_tok (TRepeat Opt) (tokenize p')
  | String "$" _ | String "[" _ | String "{" _
  | String "(" _ | String ")" _ | String "|" _ => Unmodelled
  | String c p' => cons_tok (TAtom (Lit c)) (tokenize p')
  end.

Definition cons_item (i : item) (r : py (list item)) : py (list item) :=
  l <- r ;; Returns (i :: l).

(** Attaching repeats to the item before them.  A repeat with no item
    before it, or after [^], is "nothing to repeat"; a repeat followed by
    another repeat character (lazy, possessive or "multiple repeat") is
    left out of the fragment. *)
Fixpoint items (ts : list tok) : py (list item) :=
  match ts with
  | [] => Returns []
  | TRepeat _ :: _ => Raises
  | TAtom a :: ts1 =>
      match ts1 with
      | TRepeat q :: ts2 =>
          match a with
          | Begin => Raises
          | _ =>
              match ts2 with
              | TRepeat _ :: _ => Unmodelled
              | _ => cons_item (a, q) (items ts2)
              end
          end
      | _ => cons_item (a, One) (items ts1)
      end
  end.

(** The characters the parser does not read as themselves. *)
Definition special (c : ascii) : bool :=
  existsb (Ascii.eqb c) (list_ascii_of_string "\.^$*+?{[()|").

(** The tokens and items of a pattern text without special characters. *)
Fixpoint lit_toks (g : string) : list tok :=
  match g with
  | EmptyString => []
  | String c g' => TAtom (Lit c) :: lit_toks g'
  end.

Fixpoint lit_items (g : string) : list item :=
  match g with
  | EmptyString => []
  | String c g' => (Lit c, One) :: lit_items g'
  end.

(** The token list does not start with a repeat. *)
Definition starts_atom (ts : list tok) : Prop :=
  match ts with TRepeat _ :: _ => False | _ => True end.

(** [re.compile] *)
Definition compile (p : string) : py (list item) :=
  ts <- tokenize p ;; items ts.

Definition atom_matches (a : atom) (c : ascii) : bool :=
  match a with
  | Lit d => Ascii.eqb c d
  | Any => negb (Ascii.eqb c "010")
  | Space => Char.isspace c
  | Begin => false
  end.

(** One character for an atom, then the continuation. *)
Definition one (a : atom) (k : string -> option string) (s : string)
  : option string :=
  match s with
  | String c s' => if atom_matches a c then k s' else None
  | EmptyString => None
  end.

(** A greedy repeat: as many characters as the atom takes, giving them
    back one at a time while the continuation fails.  [p0] tells whether
    the current position is the start of the subject. *)
Fixpoint many (a : atom) (k : bool -> string -> option string) (p0 : bool)
    (s : string) : option string :=
  match s with
  | String c s' =>
      if atom_matches a c
      then match many a k false s' with
           | Some r => Some r
           | None => k p0 s
           end
      else k p0 s
  | EmptyString => k p0 s
  end.

(** The backtracking matcher: the rest of the subject after the first
    match in priority order. *)
Fixpoint match_here (its : list item) (pos0 : bool) (s : string) : option string :=
  match its with
  | [] => Some s
  | (a, q) :: rest =>
      match q with
      | One =>
          match a with
          | Begin => if pos0 then match_here rest pos0 s else None
          | _ => one a (match_here rest false) s
          end
      | Opt =>
          match one a (match_here rest false) s with
          | Some r => Some r
          | None => match_here rest pos0 s
          end
      | Star => many a (match_here rest) pos0 s
      | Plus => one a (many a (match_here rest) false) s
      end
  end.

(** [re.match(p, s)], as a truth value. *)
Definition re_match (p s : string) : py bool :=
  its <- compile p ;;
  Returns (match match_here its true s with Some _ => true | None => false end).

Fixpoint sub_first (its : list item) (pos0 : bool) (s : string) : string :=
  match match_here its pos0 s with
  | Some r => r
  | None =>
      match s with
      | EmptyString => EmptyString
      | String c s' => String c (sub_first its false s')
      end
  end.

(** [re.sub(p, "", s, count=1)]: the leftmost match is deleted. *)
Definition re_sub_first (p s : string) : py string :=
  its <- compile p ;; Returns (sub_first its true s).

End Re.

(** ** The fixed patterns of the classifier *)

(** What [$] accepts: the end of the string, or a newline that ends it. *)
Definition at_end (s : string) : bool :=
  match s with
  | EmptyString => true
  | String c EmptyString => Ascii.eqb c "010"
  | _ => false
  end.

(** [re.match(r'^sp\.?$', e, re.IGNORECASE)] *)
Definition match_sp (e : string) : bool :=
  match e with
  | String a (String b r) =>
      Char.eq_nocase "s" a && Char.eq_nocase "p" b
      && (at_end r || match r with String "." r' => at_end r' | _ => false end)
  | _ => false
  end.

(** [re.match(r'^sp[._]', e, re.IGNORECASE)] *)
Definition match_sp_code (e : string) : bool :=
  match e with
  | String a (String b (String c _)) =>
      Char.eq_nocase "s" a && Char.eq_nocase "p" b
      && (Ascii.eqb c "." || Ascii.eqb c "_")
  | _ => false
  end.

(** [e.lower() in ['aff.', 'cf.']] *)
Definition is_qualifier (e : string) : bool :=
  (lower e =? "aff.") || (lower e =? "cf.").

(** [re.match(r'^([a-z]+)', e)]: group 1 and [e[len(group 1):]]; the match
    fails when the first component is empty. *)
Fixpoint lowercase_run (e : string) : string * string :=
  match e with
  | EmptyString => (EmptyString, EmptyString)
  | String c e' =>
      if Char.is_az c
      then let (run, tail) := lowercase_run e' in (String c run, tail)
      else (EmptyString, e)
  end.

(** [re.match(r'^[a-z]+$', t)] *)
Fixpoint az_then_end (t : string) : bool :=
  match t with
  | EmptyString => true
  | String c t' => if Char.is_az c then az_then_end t' else at_end t
  end.

Definition match_subspecies (t : string) : bool :=
  match t with
  | String c t' => Char.is_az c && az_then_end t'
  | EmptyString => false
  end.

(** ** [clean_species_name] *)

(** (cleaned_species, cleaned_subspecies, extracted_suffix) *)
Definition ParseResult : Type := (option string * option string * option string)%type.

Definition binomial_of (r : ParseResult) : option string := fst (fst r).
Definition trinomial_of (r : ParseResult) : option string := snd (fst r).
Definition suffix_of (r : ParseResult) : option string := snd r.

Definition all_absent : ParseResult := (None, None, None).

(** [genus_value and pd.notna(genus_value)] *)
Definition genus_given (genus_value : option string) : bool :=
  match genus_value with
  | Some g => nonempty g
  | None => false
  end.

Definition genus_text (genus_value : option string) : string :=
  match genus_value with
  | Some g => strip g
  | None => EmptyString
  end.

(** [parts[0][0].isupper()] *)
Definition first_isupper (p : string) : bool :=
  match p with
  | String c _ => Char.isupper c
  | EmptyString => false
  end.

(** Lines 53-58: the doubled genus is removed from [species_str]. *)
Definition remove_doubled_genus (genus_value : option string)
    (species_str : string) : py string :=
  if genus_given genus_value then
    let genus_str := genus_text genus_value in
    doubled <- Re.re_match ("^" ++ genus_str ++ "\s+" ++ genus_str ++ "\s+") species_str ;;
    if (doubled : bool)
    then Re.re_sub_first ("^" ++ genus_str ++ "\s+") species_str
    else Returns species_str
  else Returns species_str.

(** Lines 66-79: the genus part and the parts after it. *)
Definition resolve_genus (genus_value : option string) (parts : list string)
  : option (string * list string) :=
  match parts with
  | [] => None
  | p0 :: rest =>
      if first_isupper p0 then Some (p0, rest)
      else if genus_given genus_value then Some (genus_text genus_value, parts)
      else None
  end.

(** Lines 112-144: binomial, trinomial and suffix once the epithet is split
    into its lowercase run and what is glued to it. *)
Definition build (genus_part canonical_species suffix_from_species : string)
    (after : list string) : ParseResult :=
  let binomial := genus_part ++ " " ++ canonical_species in
  match after with
  | next_part :: further =>
      if match_subspecies next_part then
        let trinomial := binomial ++ " " ++ next_part in
        match further with
        | _ :: _ => (Some binomial, Some trinomial, Some (join further))
        | [] => (Some binomial, Some trinomial, None)
        end
      else
        let suffix := join after in
        let suffix :=
          if nonempty suffix_from_species
          then suffix_from_species ++ " " ++ suffix
          else if nonempty suffix_from_species then suffix_from_species
          else suffix in
        (Some binomial, None, if nonempty suffix then Some suffix else None)
  | [] =>
      if nonempty suffix_from_species
      then (Some binomial, None, Some suffix_from_species)
      else (Some binomial, None, None)
  end.

(** Lines 60-144, on the string left by the doubled-genus step. *)
Definition parse_name (genus_value : option string) (species_str : string)
  : ParseResult :=
  let parts := split species_str in
  match parts with
  | [] => all_absent
  | _ :: _ =>
      match resolve_genus genus_value parts with
      | None => (None, None, Some species_str)
      | Some (genus_part, remaining_parts) =>
          match remaining_parts with
          | [] => (None, None, Some species_str)
          | species_epithet :: after =>
              if match_sp species_epithet then (None, None, Some species_str)
              else if match_sp_code species_epithet then (None, None, Some species_str)
              else if is_qualifier species_epithet then (None, None, Some species_str)
              else
                let (canonical_species, suffix_from_species) :=
                  lowercase_run species_epithet in
                if nonempty canonical_species
                then build genus_part canonical_species suffix_from_species after
                else (None, None, Some species_str)
          end
      end
  end.

Definition clean_species_name (species_value genus_value : option string)
  : py ParseResult :=
  match species_value with
  | None => Returns all_absent
  | Some sv =>
      if sv =? "" then Returns all_absent
      else
        species_str <- remove_doubled_genus genus_value (strip sv) ;;
        Returns (parse_name genus_value species_str)
  end.

(** ** Predicates used in the statements *)

(** The epithet is one of the placeholders of lines 88-99. *)
Definition placeholder (e : string) : bool :=
  match_sp e || match_sp_code e || is_qualifier e.

(** A present trinomial is the present binomial, a space and a word of
    lowercase letters. *)
Definition trinomial_extends_binomial (r : ParseResult) : Prop :=
  (binomial_of r = None -> trinomial_of r = None)
  /\ forall tri, trinomial_of r = Some tri ->
       exists bi sub, binomial_of r = Some bi
         /\ tri = bi ++ " " ++ sub /\ match_subspecies sub = true.

(** The first character is in [[a-z]]. *)
Definition starts_lowercase (e : string) : bool :=
  match e with
  | String c _ => Char.is_az c
  | EmptyString => false
  end.

(** The shapes in which no epithet with a lowercase start is isolated from
    the string [w] left by the doubled-genus step: no genus at all, a genus
    and nothing else, a placeholder epithet, an epithet that does not start
    in [[a-z]]. *)
Inductive no_epithet (gv : option string) (w : string) : Prop :=
| NoGenus (p0 : string) (rest : list string) :
    split w = p0 :: rest -> first_isupper p0 = false ->
    genus_given gv = false -> no_epithet gv w
| GenusOnly (gp : string) :
    resolve_genus gv (split w) = Some (gp, []) -> no_epithet gv w
| PlaceholderEpithet (gp e : string) (after : list string) :
    resolve_genus gv (split w) = Some (gp, e :: after) ->
    placeholder e = true -> no_epithet gv w
| NotLowercase (gp e : string) (after : list string) :
    resolve_genus gv (split w) = Some (gp, e :: after) ->
    starts_lowercase e = false -> no_epithet gv w.

(** The genus text has no character that is special in a pattern. *)
Definition plain (g : string) : bool :=
  all_chars (fun c => negb (Re.special c)) g.

Definition genus_plain (gv : option string) : bool := plain (genus_text gv).

(** The first character is no whitespace. *)
Definition word_start (s : string) : bool :=
  match s with
  | String c _ => negb (Char.isspace c)
  | EmptyString => false
  end.

(** [s] without its prefix [g]. *)
Fixpoint drop_prefix (g s : string) : option string :=
  match g with
  | EmptyString => Some s
  | String c g' =>
      match s with
      | String d s' => if Ascii.eqb d c then drop_prefix g' s' else None
      | EmptyString => None
      end
  end.

(** [s] without the whitespace it starts with, which there must be. *)
Definition drop_spaces (s : string) : option string :=
  match s with
  | String c s' => if Char.isspace c then Some (lstrip s') else None
  | EmptyString => None
  end.

(** [s] without its prefix [g] and the whitespace after it. *)
Definition skip_genus (g s : string) : option string :=
  match drop_prefix g s with
  | Some r => drop_spaces r
  | None => None
  end.

(** The doubled-genus test as the specification words it, on the text
    itself and not as a pattern: [s] starts with [g], whitespace, [g] again
    and whitespace. *)
Definition doubled_genus (g s : string) : bool :=
  match skip_genus g s with
  | Some r => match skip_genus g r with Some _ => true | None => false end
  | None => false
  end.

(** The string the doubled-genus step leaves when the genus text [g] is
    plain: [s] without its first [g] and the whitespace after it if the
    genus is doubled, [s] itself otherwise. *)
Definition dedouble (g s : string) : string :=
  if doubled_genus g s
  then match skip_genus g s with Some r => r | None => s end
  else s.

Definition working_string (gv : option string) (s : string) : string :=
  if genus_given gv then dedouble (genus_text gv) s else s.

(** A non-empty string of whitespace. *)
Definition spaces (w : string) : bool := nonempty w && all_chars Char.isspace w.

(** No whitespace in the string. *)
Definition no_space (s : string) : bool :=
  all_chars (fun c => negb (Char.isspace c)) s.

(** The number of whitespace characters. *)
Fixpoint space_count (s : string) : nat :=
  match s with
  | EmptyString => 0
  | String c s' => (if Char.isspace c then 1 else 0) + space_count s'
  end.

(** ** The callers: [analyze_species_column] and [clean_metadata] *)

(** The data frame read from the CSV file is the list of its rows in index
    order; a cell holds text or is missing ([None] for NaN and [None]).  A
    column the file does not have reads as missing in every row, which is
    what [row.get] returns for it and what lines 263-268 put into the
    columns they add.  Reading and writing the file and the log lines are
    not part of the model; the counters that are only logged are returned
    with the result.  [analyze_species_column] and [clean_metadata] are the
    two functions after their guard on the species column, with every
    write of the loop taken; [analyze_frame] and [clean_metadata_frame]
    start from the frame read, with the guard and with the columns that
    refuse text. *)
Module Metadata.

Record row : Type := mkRow {
  species : option string;
  genus : option string;
  subspecies : option string;
  species_suffix : option string
}.

(** The exceptions the two functions can end in. *)
Inductive exn : Type := ReError | ZeroDivisionError | TypeError.

Inductive run (A : Type) : Type :=
| Done (a : A)
| Fails (e : exn)
| Outside.   (* a genus pattern outside the embedded fragment of [re] *)
Arguments Done {A} a.
Arguments Fails {A} e.
Arguments Outside {A}.

(** The only exception of [clean_species_name] is the [re.error] of a
    genus pattern. *)
Definition of_py {A : Type} (m : py A) : run A :=
  match m with
  | Returns a => Done a
  | Raises => Fails ReError
  | Unmodelled => Outside
  end.

(** [pd.isna(species) or species == ''] *)
Definition is_missing (cell : option string) : bool :=
  match cell with
  | None => true
  | Some s => s =? ""
  end.

(** The truth value of an optional string: [if suffix:] *)
Definition truthy (cell : option string) : bool :=
  match cell with
  | Some s => nonempty s
  | None => false
  end.

(** [str(x)] and [f"{x}"] of an optional string. *)
Definition py_str (cell : option string) : string :=
  match cell with
  | Some s => s
  | None => "None"
  end.

(** The dictionary [results] of [analyze_species_column]. *)
Record results : Type := mkResults {
  total : nat;
  empty : nat;
  sp_variants : nat;
  with_suffix : nat;
  trinomials : nat;
  clean : nat;
  ex_sp_variants : list string;
  ex_with_suffix : list string;
  ex_trinomials : list string;
  ex_clean : list string
}.

Definition no_results : results := mkResults 0 0 0 0 0 0 [] [] [] [].

(** [if len(l) < cap: l.append(x)] *)
Definition add_example (cap : nat) (l : list string) (x : string) : list string :=
  if (List.length l <? cap)%nat then (l ++ [x])%list else l.

(** The body of the loop of lines 177-211.  [arrow] is the one-character
    string U+2192 of the two formatted examples, a character outside the
    modelled alphabet. *)
Definition tally (arrow : string) (res : results) (r : row) : run results :=
  let n := S (total res) in
  if is_missing (species r) then
    Done (mkResults n (S (empty res)) (sp_variants res) (with_suffix res)
            (trinomials res) (clean res) (ex_sp_variants res)
            (ex_with_suffix res) (ex_trinomials res) (ex_clean res))
  else
    match of_py (clean_species_name (species r) (genus r)) with
    | Done (cleaned_binomial, cleaned_trinomial, suffix) =>
        match cleaned_binomial with
        | None =>
            Done (mkResults n (empty res) (S (sp_variants res)) (with_suffix res)
                    (trinomials res) (clean res)
                    (add_example 10 (ex_sp_variants res) (py_str (species r)))
                    (ex_with_suffix res) (ex_trinomials res) (ex_clean res))
        | Some _ =>
            if truthy suffix then
              Done (mkResults n (empty res) (sp_variants res) (S (with_suffix res))
                      (trinomials res) (clean res) (ex_sp_variants res)
                      (add_example 10 (ex_with_suffix res)
                         (py_str (species r) ++ " " ++ arrow ++ " binomial='"
                          ++ py_str cleaned_binomial ++ "' + suffix='"
                          ++ py_str suffix ++ "'"))
                      (ex_trinomials res) (ex_clean res))
            else if truthy cleaned_trinomial then
              Done (mkResults n (empty res) (sp_variants res) (with_suffix res)
                      (S (trinomials res)) (clean res) (ex_sp_variants res)
                      (ex_with_suffix res)
                      (add_example 5 (ex_trinomials res)
                         (py_str (species r) ++ " " ++ arrow ++ " binomial='"
                          ++ py_str cleaned_binomial ++ "', trinomial='"
                          ++ py_str cleaned_trinomial ++ "'"))
                      (ex_clean res))
            else
              Done (mkResults n (empty res) (sp_variants res) (with_suffix res)
                      (trinomials res) (S (clean res)) (ex_sp_variants res)
                      (ex_with_suffix res) (ex_trinomials res)
                      (add_example 5 (ex_clean res) (py_str (species r))))
        end
    | Fails e => Fails e
    | Outside => Outside
    end.

(** [for _, row in df.iterrows(): ...] *)
Fixpoint tally_rows (arrow : string) (res : results) (df : list row) : run results :=
  match df with
  | [] => Done res
  | r :: rest =>
      match tally arrow res r with
      | Done res' => tally_rows arrow res' rest
      | Fails e => Fails e
      | Outside => Outside
      end
  end.

(** [analyze_species_column] on a frame that has a species column.  The
    report of lines 214-220 divides by [results['total']]. *)
Definition analyze_species_column (arrow : string) (df : list row) : run results :=
  match tally_rows arrow no_results df with
  | Done res => if (total res =? 0)%nat then Fails ZeroDivisionError else Done res
  | Fails e => Fails e
  | Outside => Outside
  end.

(** The counters of lines 275-278, logged at lines 315-318. *)
Record counts : Type := mkCounts {
  cleaned_count : nat;
  suffix_count : nat;
  trinomial_count : nat;
  invalidated_count : nat
}.

Definition no_counts : counts := mkCounts 0 0 0 0.

(** The body of the loop of lines 280-308: the counters and the row of
    index [idx] after it. *)
Definition clean_row (c : counts) (r : row) : run (counts * row) :=
  if is_missing (species r) then Done (c, r)
  else
    let original_species := py_str (species r) in
    match of_py (clean_species_name (species r) (genus r)) with
    | Done (cleaned_binomial, cleaned_trinomial, suffix) =>
        Done
          (mkCounts
             (if py_str cleaned_binomial =? original_species
              then cleaned_count c else S (cleaned_count c))
             (if truthy suffix then S (suffix_count c) else suffix_count c)
             (if truthy cleaned_trinomial
              then S (trinomial_count c) else trinomial_count c)
             (match cleaned_binomial with
              | None => if truthy suffix
                        then S (invalidated_count c) else invalidated_count c
              | Some _ => invalidated_count c
              end),
           mkRow cleaned_binomial (genus r)
             (if truthy cleaned_trinomial then cleaned_trinomial else subspecies r)
             (if truthy suffix then suffix else species_suffix r))
    | Fails e => Fails e
    | Outside => Outside
    end.

Fixpoint clean_rows (c : counts) (df : list row) : run (counts * list row) :=
  match df with
  | [] => Done (c, [])
  | r :: rest =>
      match clean_row c r with
      | Done (c1, r1) =>
          match clean_rows c1 rest with
          | Done (c2, rest1) => Done (c2, r1 :: rest1)
          | Fails e => Fails e
          | Outside => Outside
          end
      | Fails e => Fails e
      | Outside => Outside
      end
  end.

(** [clean_metadata] on a frame that has a species column: the counters
    and the frame it returns and writes. *)
Definition clean_metadata (df : list row) : run (counts * list row) :=
  clean_rows no_counts df.

(** The relation of a row to the same row after [clean_metadata]. *)
Definition kept (r r' : row) : Prop :=
  genus r' = genus r
  /\ (is_missing (species r) = true -> r' = r)
  /\ (truthy (subspecies r) = true -> truthy (subspecies r') = true)
  /\ (truthy (species_suffix r) = true -> truthy (species_suffix r') = true).

(** A cell of the cleaned species column: missing, empty, or a genus
    part, one space and a non-empty word of lowercase letters. *)
Definition binomial_cell (cell : option string) : Prop :=
  match cell with
  | None => True
  | Some b =>
      b = "" \/ exists gp e, b = gp ++ " " ++ e
                 /\ nonempty e = true /\ all_chars Char.is_az e = true
  end.

(** The frame as [pd.read_csv] gives it: which of the three columns the
    file has, and its rows. *)
Record frame : Type := mkFrame {
  has_species : bool;
  has_subspecies : bool;
  has_species_suffix : bool;
  rows : list row
}.

(** Lines 157-159: without a species column the analysis returns [None]
    before it reads a row. *)
Definition analyze_frame (arrow : string) (f : frame) : run (option results) :=
  if has_species f then
    match analyze_species_column arrow (rows f) with
    | Done res => Done (Some res)
    | Fails e => Fails e
    | Outside => Outside
    end
  else Done None.

(** Lines 263-268: a column the file does not have is added with [None]
    in every row. *)
Definition added_columns (f : frame) : list row :=
  map (fun r => mkRow (species r) (genus r)
                  (if has_subspecies f then subspecies r else None)
                  (if has_species_suffix f then species_suffix r else None))
      (rows f).

(** A column read from the file with no text in any row is a column of
    numbers (float64) and refuses the text written to it; a column with
    text in some row, and a column added at lines 263-268, take it. *)
Definition takes_text (in_file : bool) (cells : list (option string)) : bool :=
  negb in_file
  || existsb (fun cell => match cell with Some _ => true | None => false end) cells.

(** The body of the loop with its two writes of text: line 297 into
    species_suffix, line 301 into subspecies.  When both are taken the row
    is as [clean_row] gives it. *)
Definition clean_row_in (suffix_ok subspecies_ok : bool) (c : counts) (r : row)
  : run (counts * row) :=
  if is_missing (species r) then Done (c, r)
  else
    match of_py (clean_species_name (species r) (genus r)) with
    | Done (_, cleaned_trinomial, suffix) =>
        if truthy suffix && negb suffix_ok then Fails TypeError
        else if truthy cleaned_trinomial && negb subspecies_ok then Fails TypeError
        else clean_row c r
    | Fails e => Fails e
    | Outside => Outside
    end.

Fixpoint clean_rows_in (suffix_ok subspecies_ok : bool) (c : counts)
    (df : list row) : run (counts * list row) :=
  match df with
  | [] => Done (c, [])
  | r :: rest =>
      match clean_row_in suffix_ok subspecies_ok c r with
      | Done (c1, r1) =>
          match clean_rows_in suffix_ok subspecies_ok c1 rest with
          | Done (c2, rest1) => Done (c2, r1 :: rest1)
          | Fails e => Fails e
          | Outside => Outside
          end
      | Fails e => Fails e
      | Outside => Outside
      end
  end.

(** [clean_metadata] from the frame read to the frame returned: [None]
    without a species column (lines 258-260). *)
Definition clean_metadata_frame (f : frame) : run (option (counts * list row)) :=
  if has_species f then
    let df := added_columns f in
    match clean_rows_in
            (takes_text (has_species_suffix f) (map species_suffix df))
            (takes_text (has_subspecies f) (map subspecies df))
            no_counts df with
    | Done out => Done (Some out)
    | Fails e => Fails e
    | Outside => Outside
    end
  else Done None.

(** A name that the cleaning takes out of the species column is in the
    species_suffix column afterwards, trimmed and without a doubled
    genus. *)
Definition invalid_name_moved (r r' : row) : Prop :=
  forall s, species r = Some s ->
    nonempty (strip s) = true ->
    genus_plain (genus r) = true ->
    species r' = None ->
    species_suffix r' = Some (working_string (genus r) (strip s))
    /\ (genus_given (genus r) = false -> species_suffix r' = Some (strip s)).

End Metadata.

(** Case analysis over the 256 characters. *)
Ltac each_char c :=
  let b0 := fresh in let b1 := fresh in let b2 := fresh in let b3 := fresh in
  let b4 := fresh in let b5 := fresh in let b6 := fresh in let b7 := fresh in
  destruct c as [b0 b1 b2 b3 b4 b5 b6 b7];
  destruct b0, b1, b2, b3, b4, b5, b6, b7.

(** ** The examples of the docstring and of the specification *)

Example ex_plain :
  clean_species_name (Some "Onthophagus incensus") None
  = Returns (Some "Onthophagus incensus", None, None).
Proof. reflexivity. Qed.

Example ex_glued_code :
  clean_species_name (Some "Onthophagus incensusASolis02") None
  = Returns (Some "Onthophagus incensus", None, Some "ASolis02").
Proof. reflexivity. Qed.

Example ex_trinomial :
  clean_species_name (Some "Onthophagus incensus auratus") None
  = Returns (Some "Onthophagus incensus", Some "Onthophagus incensus auratus", None).
Proof. reflexivity. Qed.

Example ex_doubled :
  clean_species_name (Some "Onthophagus Onthophagus incensus") (Some "Onthophagus")
  = Returns (Some "Onthophagus incensus", None, None).
Proof. vm_compute. reflexivity. Qed.

(** ** Strings: basic facts *)

Lemma append_assoc (a b c : string) : (a ++ b) ++ c = a ++ (b ++ c).
Proof. induction a as [|x a IH]; simpl; [reflexivity | now rewrite IH]. Qed.

Lemma append_nil_r (a : string) : a ++ "" = a.
Proof. induction a as [|x a IH]; simpl; [reflexivity | now rewrite IH]. Qed.

Lemma nonempty_app_l (a b : string) : nonempty a = true -> nonempty (a ++ b) = true.
Proof. destruct a; simpl; [discriminate | reflexivity]. Qed.

Lemma nonempty_false (a : string) : nonempty a = false -> a = "".
Proof. destruct a; simpl; [reflexivity | discriminate]. Qed.

Lemma eqb_empty_false (s : string) : (s =? "") = false <-> s <> "".
Proof. apply String.eqb_neq. Qed.

(** Every word of [split] is non-empty. *)
Lemma split_from_nonempty (s : string) :
  forall cur t, In t (split_from cur s) -> nonempty t = true.
Proof.
  induction s as [|c s IH]; intros cur t; simpl.
  - destruct (nonempty cur) eqn:E; simpl; [intros [<-|[]]; exact E | intros []].
  - destruct (Char.isspace c).
    + destruct (nonempty cur) eqn:E; simpl.
      * intros [<-|H]; [exact E | eapply IH; eassumption].
      * apply IH.
    + apply IH.
Qed.

Lemma split_nonempty (s t : string) : In t (split s) -> nonempty t = true.
Proof. apply split_from_nonempty. Qed.

Lemma join_cons_nonempty (t : string) (l : list string) :
  nonempty t = true -> nonempty (join (t :: l)) = true.
Proof.
  intros H. unfold join. simpl. destruct l; [exact H | now apply nonempty_app_l].
Qed.

(** ** The shape of the results *)

Lemma placeholder_false (e : string) :
  placeholder e = false ->
  match_sp e = false /\ match_sp_code e = false /\ is_qualifier e = false.
Proof.
  unfold placeholder. intros H.
  apply orb_false_elim in H as [H H3]. apply orb_false_elim in H as [H1 H2].
  now repeat split.
Qed.

(** The parts after the genus part are words of [split]. *)
Lemma resolve_genus_incl (gv : option string) (parts : list string)
    (gp : string) (remaining : list string) :
  resolve_genus gv parts = Some (gp, remaining) -> incl remaining parts.
Proof.
  unfold resolve_genus. destruct parts as [|p0 rest]; [discriminate|].
  destruct (first_isupper p0).
  - intros [= _ <-]. apply incl_tl, incl_refl.
  - destruct (genus_given gv); [|discriminate].
    intros [= _ <-]. apply incl_refl.
Qed.

(** The branch of [parse_name] that builds a binomial. *)
Lemma parse_name_build (gv : option string) (w gp e canon tail : string)
    (after : list string) :
  resolve_genus gv (split w) = Some (gp, e :: after) ->
  placeholder e = false ->
  lowercase_run e = (canon, tail) ->
  nonempty canon = true ->
  parse_name gv w = build gp canon tail after.
Proof.
  intros Hres Hph Hrun Hne.
  apply placeholder_false in Hph as (H1 & H2 & H3).
  unfold parse_name.
  destruct (split w) as [|p0 rest] eqn:Hs; [discriminate Hres|].
  rewrite Hres, H1, H2, H3, Hrun, Hne. reflexivity.
Qed.

(** Every result of [parse_name] is all-absent (no word at all), the whole
    string as suffix, or built from an epithet with a lowercase start. *)
Lemma parse_name_cases (gv : option string) (w : string) :
  (split w = [] /\ parse_name gv w = all_absent)
  \/ (split w <> [] /\ parse_name gv w = (None, None, Some w))
  \/ (exists gp e after canon tail,
        resolve_genus gv (split w) = Some (gp, e :: after)
        /\ placeholder e = false
        /\ lowercase_run e = (canon, tail)
        /\ nonempty canon = true
        /\ parse_name gv w = build gp canon tail after).
Proof.
  unfold parse_name.
  destruct (split w) as [|p0 rest] eqn:Hs; [left; now split|].
  right.
  assert (Hne : p0 :: rest <> []) by discriminate.
  destruct (resolve_genus gv (p0 :: rest)) as [[gp remaining]|] eqn:Hres;
    [|left; now split].
  destruct remaining as [|e after]; [left; now split|].
  destruct (match_sp e) eqn:H1; [left; now split|].
  destruct (match_sp_code e) eqn:H2; [left; now split|].
  destruct (is_qualifier e) eqn:H3; [left; now split|].
  destruct (lowercase_run e) as [canon tail] eqn:Hrun.
  destruct (nonempty canon) eqn:Hc; [|left; now split].
  right. exists gp, e, after, canon, tail.
  unfold placeholder. rewrite H1, H2, H3. now repeat split.
Qed.

(** What a returning call returns. *)
Lemma clean_species_name_returns (sv gv : option string) (r : ParseResult) :
  clean_species_name sv gv = Returns r ->
  r = all_absent
  \/ exists s w, sv = Some s /\ (s =? "") = false
       /\ remove_doubled_genus gv (strip s) = Returns w
       /\ r = parse_name gv w.
Proof.
  unfold clean_species_name. destruct sv as [s|]; [|intros [= <-]; now left].
  destruct (s =? "") eqn:E; [intros [= <-]; now left|].
  destruct (remove_doubled_genus gv (strip s)) as [w| |] eqn:Hw; simpl;
    try discriminate.
  intros [= <-]. right. now exists s, w.
Qed.

Lemma clean_species_name_parse (s : string) (gv : option string) (w : string) :
  (s =? "") = false ->
  remove_doubled_genus gv (strip s) = Returns w ->
  clean_species_name (Some s) gv = Returns (parse_name gv w).
Proof. intros E Hw. unfold clean_species_name. now rewrite E, Hw. Qed.

(** With no usable genus argument the regular expressions are not run. *)
Lemma remove_doubled_genus_absent (gv : option string) (s : string) :
  genus_given gv = false -> remove_doubled_genus gv s = Returns s.
Proof. intros H. unfold remove_doubled_genus. now rewrite H. Qed.

Lemma build_trinomial (gp canon tail : string) (after : list string) :
  trinomial_extends_binomial (build gp canon tail after).
Proof.
  unfold build, trinomial_extends_binomial.
  destruct after as [|n further].
  - destruct (nonempty tail); simpl; split; discriminate.
  - destruct (match_subspecies n) eqn:Hn.
    + destruct further; simpl; (split; [discriminate|]);
        intros tri [= <-]; exists (gp ++ " " ++ canon), n; now repeat split.
    + simpl; split; discriminate.
Qed.

Lemma parse_name_trinomial (gv : option string) (w : string) :
  trinomial_extends_binomial (parse_name gv w).
Proof.
  destruct (parse_name_cases gv w) as [[_ ->]|[[_ ->]|(gp & e & after & canon & tail & _ & _ & _ & _ & ->)]].
  - split; [reflexivity | discriminate].
  - split; [reflexivity | discriminate].
  - apply build_trinomial.
Qed.

(** ** Trinomial and binomial *)

(** C5: whenever the call returns a present trinomial, the binomial is
    present too and the trinomial is the binomial, one space and the
    subspecies word; whenever the binomial is absent, so is the
    trinomial. *)
Theorem trinomial_implies_binomial (sv gv : option string) (r : ParseResult) :
  clean_species_name sv gv = Returns r ->
  (binomial_of r = None -> trinomial_of r = None)
  /\ forall tri, trinomial_of r = Some tri ->
       exists bi sub, binomial_of r = Some bi
         /\ tri = bi ++ " " ++ sub /\ match_subspecies sub = true.
Proof.
  intros H. apply clean_species_name_returns in H as [->|(s & w & _ & _ & _ & ->)].
  - split; [reflexivity | discriminate].
  - apply parse_name_trinomial.
Qed.

Lemma trinomial_implies_binomial_witness :
  clean_species_name (Some "Onthophagus incensus auratus X1") None
  = Returns (Some "Onthophagus incensus", Some "Onthophagus incensus auratus", Some "X1")
  /\ exists bi sub, Some "Onthophagus incensus" = Some bi
       /\ "Onthophagus incensus auratus" = bi ++ " " ++ sub
       /\ match_subspecies sub = true.
Proof.
  split; [reflexivity|].
  exact (proj2 (trinomial_implies_binomial
                  (Some "Onthophagus incensus auratus X1") None _ eq_refl)
               "Onthophagus incensus auratus" eq_refl).
Defined.

(** ** What follows the epithet *)

Lemma build_after (gp canon tail n : string) (more : list string) :
  nonempty n = true ->
  build gp canon tail (n :: more)
  = if match_subspecies n
    then (Some (gp ++ " " ++ canon), Some ((gp ++ " " ++ canon) ++ " " ++ n),
          match more with [] => None | _ :: _ => Some (join more) end)
    else (Some (gp ++ " " ++ canon), None,
          Some (if nonempty tail then tail ++ " " ++ join (n :: more)
                else join (n :: more))).
Proof.
  intros Hn. unfold build.
  destruct (match_subspecies n); [now destruct more|].
  destruct (nonempty tail) eqn:Ht.
  - now rewrite (nonempty_app_l tail _ Ht).
  - now rewrite (join_cons_nonempty n more Hn).
Qed.

Lemma remaining_nonempty (gv : option string) (w gp t : string)
    (remaining : list string) :
  resolve_genus gv (split w) = Some (gp, remaining) ->
  In t remaining -> nonempty t = true.
Proof.
  intros Hres Hin. apply (split_nonempty w).
  exact (resolve_genus_incl _ _ _ _ Hres _ Hin).
Qed.

(** C7: when a binomial is formed and a word [n] follows the epithet: if
    [n] matches [^[a-z]+$] the trinomial is the binomial, a space and [n],
    and the suffix is the single-space join of the words after [n], absent
    if there are none; otherwise the trinomial is absent and the suffix is
    the single-space join of [n] and the words after it, with a non-empty
    glued tail of the epithet and one space put before it. *)
Theorem binomial_then_more_words (s : string) (gv : option string)
    (w gp e canon tail n : string) (more : list string) :
  s <> "" ->
  remove_doubled_genus gv (strip s) = Returns w ->
  resolve_genus gv (split w) = Some (gp, e :: n :: more) ->
  placeholder e = false ->
  lowercase_run e = (canon, tail) ->
  nonempty canon = true ->
  clean_species_name (Some s) gv
  = Returns
      (if match_subspecies n
       then (Some (gp ++ " " ++ canon),
             Some ((gp ++ " " ++ canon) ++ " " ++ n),
             match more with [] => None | _ :: _ => Some (join more) end)
       else (Some (gp ++ " " ++ canon), None,
             Some (if nonempty tail then tail ++ " " ++ join (n :: more)
                   else join (n :: more)))).
Proof.
  intros Hs Hw Hres Hph Hrun Hc.
  rewrite (clean_species_name_parse s gv w (proj2 (eqb_empty_false s) Hs) Hw).
  rewrite (parse_name_build gv w gp e canon tail _ Hres Hph Hrun Hc).
  rewrite build_after; [reflexivity|].
  apply (remaining_nonempty gv w gp n _ Hres). simpl; auto.
Qed.

Lemma binomial_then_more_words_witness :
  clean_species_name (Some " Homo sapiensX1   Y2 z ") None
  = Returns (Some "Homo sapiens", None, Some "X1 Y2 z").
Proof.
  apply (binomial_then_more_words " Homo sapiensX1   Y2 z " None
           "Homo sapiensX1   Y2 z" "Homo" "sapiensX1" "sapiens" "X1" "Y2" ["z"]);
    [discriminate | reflexivity | reflexivity | reflexivity | reflexivity
    | reflexivity].
Defined.

(** C9: when the word after the epithet is taken as the subspecies and the
    epithet has a non-empty glued tail, the result is made of the genus
    part, the lowercase run of the epithet, the subspecies word and the
    words after it: the tail is in none of the three fields. *)
Theorem glued_tail_dropped_before_subspecies (s : string) (gv : option string)
    (w gp e canon tail n : string) (more : list string) :
  s <> "" ->
  remove_doubled_genus gv (strip s) = Returns w ->
  resolve_genus gv (split w) = Some (gp, e :: n :: more) ->
  placeholder e = false ->
  lowercase_run e = (canon, tail) ->
  nonempty canon = true ->
  nonempty tail = true ->
  match_subspecies n = true ->
  clean_species_name (Some s) gv
  = Returns (Some (gp ++ " " ++ canon),
             Some ((gp ++ " " ++ canon) ++ " " ++ n),
             match more with [] => None | _ :: _ => Some (join more) end)
  /\ clean_species_name (Some s) gv = Returns (build gp canon "" (n :: more)).
Proof.
  intros Hs Hw Hres Hph Hrun Hc _ Hn.
  rewrite (clean_species_name_parse s gv w (proj2 (eqb_empty_false s) Hs) Hw).
  rewrite (parse_name_build gv w gp e canon tail _ Hres Hph Hrun Hc).
  unfold build. rewrite Hn. now destruct more.
Qed.

Lemma glued_tail_dropped_before_subspecies_witness :
  clean_species_name (Some "Onthophagus incensusX auratus") None
  = Returns (Some "Onthophagus incensus", Some "Onthophagus incensus auratus", None).
Proof.
  apply (glued_tail_dropped_before_subspecies "Onthophagus incensusX auratus" None
           "Onthophagus incensusX auratus" "Onthophagus" "incensusX" "incensus" "X"
           "auratus" []);
    [discriminate | reflexivity | reflexivity | reflexivity | reflexivity
    | reflexivity | reflexivity | reflexivity].
Defined.

(** ** The genus argument as genus part *)

(** C10: when the first word of the species string does not start with an
    uppercase letter and a genus argument is given, the trimmed genus
    argument is the genus part as it is, so the binomial starts with an
    uppercase letter only if the genus argument does. *)
Theorem genus_argument_used_verbatim (s g : string)
    (w p0 canon tail : string) (rest : list string) :
  s <> "" ->
  g <> "" ->
  remove_doubled_genus (Some g) (strip s) = Returns w ->
  split w = p0 :: rest ->
  first_isupper p0 = false ->
  placeholder p0 = false ->
  lowercase_run p0 = (canon, tail) ->
  nonempty canon = true ->
  clean_species_name (Some s) (Some g) = Returns (build (strip g) canon tail rest)
  /\ binomial_of (build (strip g) canon tail rest) = Some (strip g ++ " " ++ canon)
  /\ first_isupper (strip g ++ " " ++ canon) = first_isupper (strip g).
Proof.
  intros Hs Hg Hw Hsplit Hup Hph Hrun Hc.
  assert (Hgiven : genus_given (Some g) = true) by (destruct g; [congruence | reflexivity]).
  assert (Hres : resolve_genus (Some g) (split w) = Some (strip g, p0 :: rest)).
  { rewrite Hsplit. unfold resolve_genus. now rewrite Hup, Hgiven. }
  split; [|split].
  - rewrite (clean_species_name_parse s _ w (proj2 (eqb_empty_false s) Hs) Hw).
    f_equal. exact (parse_name_build _ w _ p0 canon tail _ Hres Hph Hrun Hc).
  - unfold build. destruct rest as [|n further].
    + now destruct (nonempty tail).
    + destruct (match_subspecies n); [now destruct further | reflexivity].
  - destruct (strip g); reflexivity.
Qed.

Lemma genus_argument_used_verbatim_witness :
  clean_species_name (Some "incensus") (Some "onthophagus")
  = Returns (Some "onthophagus incensus", None, None)
  /\ first_isupper "onthophagus incensus" = false.
Proof.
  pose proof (genus_argument_used_verbatim "incensus" "onthophagus"
                "incensus" "incensus" "incensus" "" []) as H.
  destruct H as (H1 & _ & H3);
    [discriminate | discriminate | vm_compute; reflexivity | reflexivity
    | reflexivity | reflexivity | reflexivity | reflexivity |].
  split; [exact H1 | exact H3].
Defined.

(** ** The genus patterns when the genus text is plain *)

Module ReFacts.
Import Re.

Lemma tokenize_plain_char (c : ascii) (p : string) :
  special c = false ->
  tokenize (String c p) = cons_tok (TAtom (Lit c)) (tokenize p).
Proof.
  destruct c as [b0 b1 b2 b3 b4 b5 b6 b7].
  destruct b0, b1, b2, b3, b4, b5, b6, b7; intros H;
    first [discriminate H | reflexivity].
Qed.

Lemma tokenize_plain_app (g p : string) :
  plain g = true ->
  tokenize (g ++ p) = (ts <- tokenize p ;; Returns (lit_toks g ++ ts)%list).
Proof.
  induction g as [|c g IH]; intros H.
  - simpl. now destruct (tokenize p).
  - apply andb_true_iff in H as [Hc Hg]. apply negb_true_iff in Hc.
    change (String c g ++ p) with (String c (g ++ p)).
    rewrite (tokenize_plain_char c (g ++ p) Hc), (IH Hg).
    simpl. now destruct (tokenize p).
Qed.

Lemma items_atom (a : atom) (ts : list tok) :
  starts_atom ts -> items (TAtom a :: ts) = cons_item (a, One) (items ts).
Proof. destruct ts as [|[b|q] ts]; simpl; intros H; [reflexivity .. | contradiction]. Qed.

Lemma items_atom_repeat (a : atom) (q : quant) (ts : list tok) :
  a <> Begin -> starts_atom ts ->
  items (TAtom a :: TRepeat q :: ts) = cons_item (a, q) (items ts).
Proof.
  intros Ha H. destruct a; try congruence;
    destruct ts as [|[b|q'] ts]; simpl in *; first [reflexivity | contradiction].
Qed.

Lemma starts_atom_lit_toks (g : string) (ts : list tok) :
  starts_atom ts -> starts_atom (lit_toks g ++ ts)%list.
Proof. destruct g; simpl; auto. Qed.

Lemma items_lit_toks (g : string) (ts : list tok) :
  starts_atom ts ->
  items (lit_toks g ++ ts)%list = (l <- items ts ;; Returns (lit_items g ++ l)%list).
Proof.
  intros H. induction g as [|c g IH].
  - simpl. now destruct (items ts).
  - change (lit_toks (String c g) ++ ts)%list with (TAtom (Lit c) :: (lit_toks g ++ ts)%list).
    rewrite items_atom by now apply starts_atom_lit_toks.
    rewrite IH. now destruct (items ts).
Qed.

(** The two patterns of lines 56 and 58, compiled. *)
Lemma compile_prefix_pattern (g : string) :
  plain g = true ->
  compile ("^" ++ g ++ "\s+")
  = Returns ((Begin, One) :: lit_items g ++ [(Space, Plus)])%list.
Proof.
  intros Hg. unfold compile.
  change ("^" ++ g ++ "\s+") with (String "^" (g ++ "\s+")).
  cbn [tokenize]. rewrite (tokenize_plain_app g _ Hg).
  cbn [tokenize bind cons_tok Ascii.eqb Bool.eqb].
  rewrite items_atom by (apply starts_atom_lit_toks; exact I).
  rewrite items_lit_toks by exact I. reflexivity.
Qed.

Lemma compile_doubled_pattern (g : string) :
  plain g = true ->
  compile ("^" ++ g ++ "\s+" ++ g ++ "\s+")
  = Returns ((Begin, One) :: lit_items g
             ++ (Space, Plus) :: lit_items g ++ [(Space, Plus)])%list.
Proof.
  intros Hg. unfold compile.
  change ("^" ++ g ++ "\s+" ++ g ++ "\s+")
    with (String "^" (g ++ String "\" (String "s" (String "+" (g ++ "\s+"))))).
  cbn [tokenize]. rewrite (tokenize_plain_app g _ Hg).
  cbn [tokenize Ascii.eqb Bool.eqb]. rewrite (tokenize_plain_app g _ Hg).
  cbn [tokenize bind cons_tok Ascii.eqb Bool.eqb].
  rewrite items_atom by (apply starts_atom_lit_toks; exact I).
  rewrite items_lit_toks by exact I.
  rewrite items_atom_repeat;
    [| discriminate | apply starts_atom_lit_toks; exact I].
  rewrite items_lit_toks by exact I. reflexivity.
Qed.

Lemma match_here_lits (g : string) (its : list item) :
  forall p s,
    match_here (lit_items g ++ its)%list p s
    = match drop_prefix g s with
      | Some r => match_here its (if nonempty g then false else p) r
      | None => None
      end.
Proof.
  induction g as [|c g IH]; intros p s; [reflexivity|].
  cbn [lit_items app match_here drop_prefix nonempty]. unfold one.
  destruct s as [|d s]; [reflexivity|].
  cbn [atom_matches]. destruct (Ascii.eqb d c); [|reflexivity].
  rewrite IH. now destruct (nonempty g).
Qed.

(** A greedy run of whitespace before a continuation that takes
    everything: all the whitespace goes. *)
Lemma many_space_end (s : string) :
  forall p, many Space (match_here []) p s = Some (lstrip s).
Proof.
  induction s as [|c s IH]; intros p; [reflexivity|].
  cbn [many atom_matches lstrip]. destruct (Char.isspace c); [|reflexivity].
  now rewrite IH.
Qed.

(** A greedy run of whitespace before a continuation that refuses
    whitespace: all the whitespace goes, there is nothing to give back. *)
Lemma many_space_then (k : bool -> string -> option string) (s : string) :
  (forall p c s', Char.isspace c = true -> k p (String c s') = None) ->
  (forall p q s', k p s' = k q s') ->
  forall p, many Space k p s = k false (lstrip s).
Proof.
  intros Hk Hpos. induction s as [|c s IH]; intros p.
  - simpl. apply Hpos.
  - cbn [many atom_matches lstrip]. destruct (Char.isspace c) eqn:Hc.
    + rewrite IH. destruct (k false (lstrip s)) eqn:E; [reflexivity|].
      now apply Hk.
    + apply Hpos.
Qed.

Lemma match_here_space_plus_end (p : bool) (s : string) :
  match_here [(Space, Plus)] p s = drop_spaces s.
Proof.
  cbn [match_here]. unfold one, drop_spaces.
  destruct s as [|c s]; [reflexivity|].
  cbn [atom_matches]. destruct (Char.isspace c); [apply many_space_end | reflexivity].
Qed.

(** [g\s+] at the start of [s]. *)
Lemma match_here_genus (g : string) (p : bool) (s : string) :
  match_here (lit_items g ++ [(Space, Plus)])%list p s = skip_genus g s.
Proof.
  rewrite match_here_lits. unfold skip_genus.
  destruct (drop_prefix g s); [apply match_here_space_plus_end | reflexivity].
Qed.

Lemma skip_genus_refuses_space (g : string) (c : ascii) (s : string) :
  word_start g = true -> Char.isspace c = true ->
  skip_genus g (String c s) = None.
Proof.
  unfold skip_genus. destruct g as [|d g]; [discriminate|].
  cbn [word_start drop_prefix]. intros Hd Hc.
  destruct (Ascii.eqb c d) eqn:E; [|reflexivity].
  apply Ascii.eqb_eq in E. subst d. rewrite Hc in Hd. discriminate.
Qed.

(** [g\s+g\s+] at the start of [s], for a genus text that starts with a
    character that is no whitespace. *)
Lemma match_here_doubled (g : string) (p : bool) (s : string) :
  word_start g = true ->
  match_here (lit_items g ++ (Space, Plus) :: lit_items g ++ [(Space, Plus)])%list p s
  = match skip_genus g s with
    | Some r => skip_genus g r
    | None => None
    end.
Proof.
  intros Hg. rewrite match_here_lits. unfold skip_genus at 1.
  destruct (drop_prefix g s) as [r|]; [|reflexivity].
  cbn [match_here]. unfold one, drop_spaces.
  destruct r as [|c r]; [reflexivity|].
  cbn [atom_matches]. destruct (Char.isspace c); [|reflexivity].
  rewrite many_space_then.
  - apply match_here_genus.
  - intros p' c' s' Hc'. rewrite match_here_genus.
    now apply skip_genus_refuses_space.
  - intros p' q' s'. now rewrite !match_here_genus.
Qed.

End ReFacts.

(** ** Trimmed strings *)

Lemma lstrip_word_start (s : string) :
  lstrip s = "" \/ word_start (lstrip s) = true.
Proof.
  induction s as [|c s IH]; [now left|].
  simpl. destruct (Char.isspace c) eqn:E; [exact IH|].
  right. simpl. now rewrite E.
Qed.

Lemma rstrip_word_start (s : string) :
  word_start s = true -> word_start (rstrip s) = true.
Proof.
  destruct s as [|c s]; [discriminate|]. simpl. intros Hc.
  destruct (rstrip s); [|exact Hc].
  apply negb_true_iff in Hc. rewrite Hc. simpl. now rewrite Hc.
Qed.

Lemma strip_word_start (s : string) :
  strip s = "" \/ word_start (strip s) = true.
Proof.
  unfold strip. destruct (lstrip_word_start s) as [->|H]; [now left|].
  right. now apply rstrip_word_start.
Qed.

Lemma word_start_nonempty (s : string) : word_start s = true -> nonempty s = true.
Proof. destruct s; [discriminate | reflexivity]. Qed.

Lemma nonempty_strip_word_start (s : string) :
  nonempty (strip s) = true -> word_start (strip s) = true.
Proof.
  destruct (strip_word_start s) as [->|H]; [discriminate | trivial].
Qed.

Lemma split_from_cur_nonempty (s : string) :
  forall cur, nonempty cur = true -> split_from cur s <> [].
Proof.
  induction s as [|c s IH]; intros cur H; simpl.
  - rewrite H. discriminate.
  - destruct (Char.isspace c).
    + rewrite H. discriminate.
    + apply IH. destruct cur; reflexivity.
Qed.

Lemma split_word_start (s : string) : word_start s = true -> split s <> [].
Proof.
  destruct s as [|c s]; [discriminate|]. simpl. intros H.
  apply negb_true_iff in H. unfold split. simpl. rewrite H.
  now apply split_from_cur_nonempty.
Qed.

(** ** The doubled-genus step for a plain genus text *)

Lemma drop_prefix_some (g : string) :
  forall s x, drop_prefix g s = Some x -> s = g ++ x.
Proof.
  induction g as [|c g IH]; intros s x; simpl.
  - now intros [= ->].
  - destruct s as [|d s]; [discriminate|].
    destruct (Ascii.eqb d c) eqn:E; [|discriminate].
    apply Ascii.eqb_eq in E. subst d. intros H. now rewrite (IH _ _ H).
Qed.

Lemma drop_prefix_app (g x : string) : drop_prefix g (g ++ x) = Some x.
Proof.
  induction g as [|c g IH]; simpl; [reflexivity|].
  now rewrite Ascii.eqb_refl.
Qed.

Lemma word_start_app (g x : string) :
  word_start g = true -> word_start (g ++ x) = true.
Proof. destruct g; [discriminate | trivial]. Qed.

Lemma sub_first_match (its : list Re.item) (p : bool) (s r : string) :
  Re.match_here its p s = Some r -> Re.sub_first its p s = r.
Proof. intros H. destruct s; simpl; now rewrite H. Qed.

Lemma dedouble_empty_genus (s : string) :
  s = "" \/ word_start s = true -> dedouble "" s = s.
Proof.
  unfold dedouble, doubled_genus, skip_genus. simpl.
  intros [->|H]; [reflexivity|].
  destruct s as [|c s]; [reflexivity|]. simpl in *.
  apply negb_true_iff in H. now rewrite H.
Qed.

(** With a plain genus text the two regular expressions compute
    [dedouble]. *)
Lemma remove_doubled_genus_plain (gv : option string) (s : string) :
  genus_given gv = true ->
  genus_plain gv = true ->
  s = "" \/ word_start s = true ->
  remove_doubled_genus gv s = Returns (dedouble (genus_text gv) s).
Proof.
  intros Hgiven Hplain Hs. unfold remove_doubled_genus. rewrite Hgiven.
  unfold genus_plain in Hplain.
  assert (Hg : genus_text gv = "" \/ word_start (genus_text gv) = true).
  { destruct gv as [g|]; [apply strip_word_start | now left]. }
  cbv zeta. set (g := genus_text gv) in *.
  unfold Re.re_match, Re.re_sub_first.
  rewrite (ReFacts.compile_doubled_pattern g Hplain),
          (ReFacts.compile_prefix_pattern g Hplain).
  cbn [bind Re.match_here].
  destruct Hg as [Hg|Hg].
  - rewrite Hg. rewrite (dedouble_empty_genus s Hs).
    cbn [Re.lit_items app Re.match_here]. unfold Re.one.
    destruct Hs as [->|Hs]; [reflexivity|].
    destruct s as [|c s]; [reflexivity|]. simpl in Hs.
    apply negb_true_iff in Hs. cbn [Re.atom_matches]. now rewrite Hs.
  - rewrite (ReFacts.match_here_doubled g true s Hg).
    unfold dedouble, doubled_genus.
    destruct (skip_genus g s) as [r|] eqn:E1; [|reflexivity].
    destruct (skip_genus g r) as [r'|] eqn:E2; [|reflexivity].
    f_equal. apply sub_first_match.
    cbn [Re.match_here]. now rewrite ReFacts.match_here_genus.
Qed.

Lemma remove_doubled_genus_working (gv : option string) (s : string) :
  genus_plain gv = true ->
  s = "" \/ word_start s = true ->
  remove_doubled_genus gv s = Returns (working_string gv s).
Proof.
  intros Hplain Hs. unfold working_string.
  destruct (genus_given gv) eqn:Hgiven.
  - now apply remove_doubled_genus_plain.
  - now apply remove_doubled_genus_absent.
Qed.

Lemma clean_species_name_plain (s : string) (gv : option string) :
  genus_plain gv = true ->
  clean_species_name (Some s) gv
  = Returns (if s =? "" then all_absent
             else parse_name gv (working_string gv (strip s))).
Proof.
  intros Hplain. unfold clean_species_name.
  destruct (s =? ""); [reflexivity|].
  rewrite (remove_doubled_genus_working gv (strip s) Hplain (strip_word_start s)).
  reflexivity.
Qed.

Lemma dedouble_word_start (g s : string) :
  g = "" \/ word_start g = true ->
  word_start s = true -> word_start (dedouble g s) = true.
Proof.
  intros [->|Hg] Hs.
  - rewrite dedouble_empty_genus; auto.
  - unfold dedouble, doubled_genus.
    destruct (skip_genus g s) as [r|] eqn:E1; [|exact Hs].
    destruct (skip_genus g r) as [r'|] eqn:E2; [|exact Hs].
    unfold skip_genus in E2.
    destruct (drop_prefix g r) as [x|] eqn:E3; [|discriminate].
    rewrite (drop_prefix_some _ _ _ E3). now apply word_start_app.
Qed.

Lemma working_string_word_start (gv : option string) (s : string) :
  word_start s = true -> word_start (working_string gv s) = true.
Proof.
  intros Hs. unfold working_string. destruct (genus_given gv); [|exact Hs].
  apply dedouble_word_start; [|exact Hs].
  destruct gv as [g|]; [apply strip_word_start | now left].
Qed.

Lemma working_string_empty (gv : option string) : working_string gv "" = "".
Proof.
  unfold working_string, dedouble, doubled_genus, skip_genus.
  destruct (genus_given gv); [|reflexivity].
  now destruct (genus_text gv).
Qed.

Lemma binomial_of_build (gp canon tail : string) (after : list string) :
  binomial_of (build gp canon tail after) = Some (gp ++ " " ++ canon).
Proof.
  unfold build. destruct after as [|n further].
  - now destruct (nonempty tail).
  - destruct (match_subspecies n); [now destruct further | reflexivity].
Qed.

Lemma lstrip_spaces_app (w x : string) :
  all_chars Char.isspace w = true -> lstrip (w ++ x) = lstrip x.
Proof.
  induction w as [|c w IH]; simpl; [reflexivity|].
  intros H. apply andb_true_iff in H as [Hc Hw]. rewrite Hc. now apply IH.
Qed.

Lemma lstrip_word_start_id (x : string) : word_start x = true -> lstrip x = x.
Proof.
  destruct x as [|c x]; [discriminate|]. simpl. intros H.
  apply negb_true_iff in H. now rewrite H.
Qed.

Lemma lstrip_decompose (s : string) :
  exists w, all_chars Char.isspace w = true /\ s = w ++ lstrip s.
Proof.
  induction s as [|c s (w & Hw & IH)]; [now exists ""|].
  simpl. destruct (Char.isspace c) eqn:E.
  - exists (String c w). simpl. rewrite E, Hw. split; [reflexivity | now rewrite <- IH].
  - now exists "".
Qed.

Lemma drop_spaces_decompose (s x : string) :
  drop_spaces s = Some x -> exists w, spaces w = true /\ s = w ++ x.
Proof.
  unfold drop_spaces. destruct s as [|c s]; [discriminate|].
  destruct (Char.isspace c) eqn:E; [|discriminate]. intros [= <-].
  destruct (lstrip_decompose s) as (w & Hw & Hs).
  exists (String c w). unfold spaces. simpl. rewrite E, Hw.
  split; [reflexivity | now rewrite <- Hs].
Qed.

Lemma drop_spaces_app (w x : string) :
  spaces w = true -> drop_spaces (w ++ x) = Some (lstrip x).
Proof.
  unfold spaces. destruct w as [|c w]; [discriminate|]. simpl.
  intros H. apply andb_true_iff in H as [Hc Hw]. rewrite Hc.
  now rewrite lstrip_spaces_app.
Qed.

Lemma skip_genus_app (g w x : string) :
  spaces w = true -> skip_genus g (g ++ w ++ x) = Some (lstrip x).
Proof.
  intros Hw. unfold skip_genus. rewrite drop_prefix_app. now apply drop_spaces_app.
Qed.

Lemma skip_genus_decompose (g s x : string) :
  skip_genus g s = Some x -> exists w, spaces w = true /\ s = g ++ w ++ x.
Proof.
  unfold skip_genus. destruct (drop_prefix g s) as [y|] eqn:E; [|discriminate].
  intros H. apply drop_spaces_decompose in H as (w & Hw & ->).
  exists w. split; [exact Hw | now apply drop_prefix_some].
Qed.

(** For a plain genus word, the removal fires exactly on
    genus, whitespace, genus, whitespace. *)
Lemma doubled_genus_iff (g s : string) :
  word_start g = true ->
  doubled_genus g s = true
  <-> exists w1 w2 x, spaces w1 = true /\ spaces w2 = true
        /\ s = g ++ w1 ++ g ++ w2 ++ x.
Proof.
  intros Hg. unfold doubled_genus. split.
  - destruct (skip_genus g s) as [r|] eqn:E1; [|discriminate].
    destruct (skip_genus g r) as [r'|] eqn:E2; [|discriminate]. intros _.
    apply skip_genus_decompose in E1 as (w1 & H1 & ->).
    apply skip_genus_decompose in E2 as (w2 & H2 & ->).
    now exists w1, w2, r'.
  - intros (w1 & w2 & x & H1 & H2 & ->).
    rewrite (skip_genus_app g w1 _ H1).
    rewrite (lstrip_word_start_id _ (word_start_app g _ Hg)).
    now rewrite (skip_genus_app g w2 _ H2).
Qed.

(** When it fires, one genus and the whitespace after it go. *)
Lemma dedouble_doubled (g w1 w2 x : string) :
  word_start g = true -> spaces w1 = true -> spaces w2 = true ->
  dedouble g (g ++ w1 ++ g ++ w2 ++ x) = g ++ w2 ++ x.
Proof.
  intros Hg H1 H2. unfold dedouble.
  assert (Hd : doubled_genus g (g ++ w1 ++ g ++ w2 ++ x) = true)
    by (apply doubled_genus_iff; [exact Hg | now exists w1, w2, x]).
  rewrite Hd, (skip_genus_app g w1 _ H1).
  apply lstrip_word_start_id. now apply word_start_app.
Qed.

Lemma dedouble_not_doubled (g s : string) :
  doubled_genus g s = false -> dedouble g s = s.
Proof. intros H. unfold dedouble. now rewrite H. Qed.

Lemma working_string_not_doubled (gv : option string) (s : string) :
  doubled_genus (genus_text gv) s = false -> working_string gv s = s.
Proof.
  intros H. unfold working_string.
  destruct (genus_given gv); [now apply dedouble_not_doubled | reflexivity].
Qed.

(** ** Strings that degrade to a suffix *)

Lemma starts_lowercase_false (e : string) :
  starts_lowercase e = false -> lowercase_run e = ("", e).
Proof. destruct e as [|c e]; simpl; [reflexivity | now intros ->]. Qed.

Lemma parse_name_no_epithet (gv : option string) (w : string) :
  no_epithet gv w -> parse_name gv w = (None, None, Some w).
Proof.
  intros [p0 rest Hs Hup Hg | gp Hres | gp e after Hres Hph | gp e after Hres Hlow];
    unfold parse_name.
  - rewrite Hs. unfold resolve_genus. now rewrite Hup, Hg.
  - destruct (split w); [discriminate Hres | now rewrite Hres].
  - destruct (split w); [discriminate Hres|]. rewrite Hres.
    unfold placeholder in Hph.
    destruct (match_sp e); [reflexivity|].
    destruct (match_sp_code e); [reflexivity|].
    destruct (is_qualifier e); [reflexivity | discriminate].
  - destruct (split w); [discriminate Hres|]. rewrite Hres.
    rewrite (starts_lowercase_false e Hlow). simpl.
    destruct (match_sp e); [reflexivity|].
    destruct (match_sp_code e); [reflexivity|].
    now destruct (is_qualifier e).
Qed.

(** For a genus argument that is absent or plain the doubled-genus step
    returns, and what it returns is determined by the trimmed species: the
    trimmed species itself, unless a genus is given and the trimmed species
    starts with genus, whitespace, genus, whitespace; then it is the
    trimmed species without its first genus and the whitespace after
    it. *)
Lemma working_string_determined (s : string) (gv : option string) :
  genus_plain gv = true ->
  remove_doubled_genus gv (strip s) = Returns (working_string gv (strip s))
  /\ (genus_given gv = false -> working_string gv (strip s) = strip s)
  /\ (genus_given gv = true ->
      forall w1 w2 x, spaces w1 = true -> spaces w2 = true ->
        strip s = genus_text gv ++ w1 ++ genus_text gv ++ w2 ++ x ->
        working_string gv (strip s) = genus_text gv ++ w2 ++ x)
  /\ ((forall w1 w2 x, spaces w1 = true -> spaces w2 = true ->
         strip s <> genus_text gv ++ w1 ++ genus_text gv ++ w2 ++ x) ->
      working_string gv (strip s) = strip s).
Proof.
  intros Hplain.
  assert (Hg : genus_text gv = "" \/ word_start (genus_text gv) = true).
  { destruct gv as [g|]; [apply strip_word_start | now left]. }
  split; [|split; [|split]].
  - apply remove_doubled_genus_working; [exact Hplain | apply strip_word_start].
  - intros G. unfold working_string. now rewrite G.
  - intros G w1 w2 x H1 H2 E. unfold working_string. rewrite G.
    destruct Hg as [Hg|Hg].
    + exfalso. rewrite Hg in E. simpl in E.
      destruct w1 as [|c w1]; [discriminate H1|].
      unfold spaces in H1. simpl in H1. apply andb_true_iff in H1 as [Hc _].
      destruct (strip_word_start s) as [Z|Z]; rewrite E in Z;
        [discriminate Z | simpl in Z; rewrite Hc in Z; discriminate Z].
    + rewrite E. now apply dedouble_doubled.
  - intros Hno. apply working_string_not_doubled.
    destruct Hg as [Hg|Hg].
    + rewrite Hg. unfold doubled_genus, skip_genus. simpl.
      destruct (strip_word_start s) as [Z|Z]; [now rewrite Z|].
      destruct (strip s) as [|c t]; [reflexivity|]. simpl in *.
      apply negb_true_iff in Z. now rewrite Z.
    + destruct (doubled_genus (genus_text gv) (strip s)) eqn:E; [|reflexivity].
      apply (doubled_genus_iff _ _ Hg) in E as (w1 & w2 & x & H1 & H2 & E).
      now destruct (Hno w1 w2 x H1 H2).
Qed.

(** C3 (amended): for a non-empty input, whenever no epithet with a
    lowercase start is isolated from the trimmed species string as the
    doubled-genus step leaves it (no genus at all, genus only, placeholder
    epithet, epithet not starting in a-z), binomial and trinomial are absent
    and the suffix is that whole string.  For a genus argument that is
    absent or whose trimmed text has no special pattern character the
    string is determined: the trimmed input itself, unless a genus is given
    and the trimmed input starts with genus, whitespace, genus, whitespace,
    and then the trimmed input without its first genus and the whitespace
    after it. *)
Theorem no_epithet_keeps_whole_string (s : string) (gv : option string) :
  s <> "" ->
  (forall w, remove_doubled_genus gv (strip s) = Returns w ->
     no_epithet gv w ->
     clean_species_name (Some s) gv = Returns (None, None, Some w))
  /\ (genus_plain gv = true ->
      remove_doubled_genus gv (strip s) = Returns (working_string gv (strip s))
      /\ (genus_given gv = false -> working_string gv (strip s) = strip s)
      /\ (genus_given gv = true ->
          forall w1 w2 x, spaces w1 = true -> spaces w2 = true ->
            strip s = genus_text gv ++ w1 ++ genus_text gv ++ w2 ++ x ->
            working_string gv (strip s) = genus_text gv ++ w2 ++ x)
      /\ ((forall w1 w2 x, spaces w1 = true -> spaces w2 = true ->
             strip s <> genus_text gv ++ w1 ++ genus_text gv ++ w2 ++ x) ->
          working_string gv (strip s) = strip s)).
Proof.
  intros Hs. split.
  - intros w Hw Hno.
    rewrite (clean_species_name_parse s gv w (proj2 (eqb_empty_false s) Hs) Hw).
    now rewrite (parse_name_no_epithet gv w Hno).
  - apply working_string_determined.
Qed.

Lemma no_epithet_keeps_whole_string_witness :
  clean_species_name (Some "  Bos  Bos   Taurus 12 ") (Some "Bos")
  = Returns (None, None, Some "Bos   Taurus 12")
  /\ working_string (Some "Bos") (strip "  Bos  Bos   Taurus 12 ")
     = "Bos" ++ "   " ++ "Taurus 12".
Proof.
  destruct (no_epithet_keeps_whole_string "  Bos  Bos   Taurus 12 " (Some "Bos"))
    as [HA HB]; [discriminate|].
  destruct (HB eq_refl) as (Hw & _ & Hd & _).
  split.
  - apply HA; [exact Hw|].
    apply (NotLowercase _ _ "Bos" "Taurus" ["12"]); reflexivity.
  - apply (Hd eq_refl "  " "   " "Taurus 12"); reflexivity.
Defined.

(** The suffix of a degraded result can differ from the trimmed input. *)
Lemma no_epithet_suffix_not_original :
  clean_species_name (Some "Onthophagus Onthophagus Incensus") (Some "Onthophagus")
  = Returns (None, None, Some "Onthophagus Incensus")
  /\ strip "Onthophagus Onthophagus Incensus" <> "Onthophagus Incensus".
Proof. split; [vm_compute; reflexivity | discriminate]. Qed.

(** C6 (amended): if the epithet matches [^sp\.?$] or [^sp[._]] without
    regard to case, or its lowercase form is "aff." or "cf.", binomial and
    trinomial are absent and the suffix is the whole trimmed species string
    as the doubled-genus step leaves it.  For a genus argument that is
    absent or whose trimmed text has no special pattern character that
    string is determined: the trimmed input itself, unless a genus is given
    and the trimmed input starts with genus, whitespace, genus, whitespace,
    and then the trimmed input without its first genus and the whitespace
    after it.  So "Onthophagus sp." and "Onthophagus sp._13YB" with no
    genus come back whole as suffix. *)
Theorem placeholder_epithet_keeps_whole_string :
  (forall (s : string) (gv : option string),
      s <> "" ->
      (forall (w gp e : string) (after : list string),
          remove_doubled_genus gv (strip s) = Returns w ->
          resolve_genus gv (split w) = Some (gp, e :: after) ->
          placeholder e = true ->
          clean_species_name (Some s) gv = Returns (None, None, Some w))
      /\ (genus_plain gv = true ->
          remove_doubled_genus gv (strip s) = Returns (working_string gv (strip s))
          /\ (genus_given gv = false -> working_string gv (strip s) = strip s)
          /\ (genus_given gv = true ->
              forall w1 w2 x, spaces w1 = true -> spaces w2 = true ->
                strip s = genus_text gv ++ w1 ++ genus_text gv ++ w2 ++ x ->
                working_string gv (strip s) = genus_text gv ++ w2 ++ x)
          /\ ((forall w1 w2 x, spaces w1 = true -> spaces w2 = true ->
                 strip s <> genus_text gv ++ w1 ++ genus_text gv ++ w2 ++ x) ->
              working_string gv (strip s) = strip s)))
  /\ clean_species_name (Some "Onthophagus sp.") None
     = Returns (None, None, Some "Onthophagus sp.")
  /\ clean_species_name (Some "Onthophagus sp._13YB") None
     = Returns (None, None, Some "Onthophagus sp._13YB").
Proof.
  split; [|split; reflexivity].
  intros s gv Hs. split.
  - intros w gp e after Hw Hres Hph.
    pose proof (PlaceholderEpithet gv w gp e after Hres Hph) as Hno.
    rewrite (clean_species_name_parse s gv w (proj2 (eqb_empty_false s) Hs) Hw).
    now rewrite (parse_name_no_epithet gv w Hno).
  - apply working_string_determined.
Qed.

Lemma placeholder_epithet_keeps_whole_string_witness :
  clean_species_name (Some " Onthophagus  Onthophagus CF. incensus") (Some "Onthophagus")
  = Returns (None, None, Some "Onthophagus CF. incensus")
  /\ working_string (Some "Onthophagus") (strip " Onthophagus  Onthophagus CF. incensus")
     = "Onthophagus" ++ " " ++ "CF. incensus".
Proof.
  destruct (proj1 placeholder_epithet_keeps_whole_string
              " Onthophagus  Onthophagus CF. incensus" (Some "Onthophagus"))
    as [HA HB]; [discriminate|].
  destruct (HB eq_refl) as (Hw & _ & Hd & _).
  split.
  - apply (HA _ "Onthophagus" "CF." ["incensus"]); [exact Hw | reflexivity | reflexivity].
  - apply (Hd eq_refl "  " " " "CF. incensus"); reflexivity.
Defined.

(** After a doubled genus is removed, the suffix of a placeholder epithet
    is not the trimmed input. *)
Lemma placeholder_suffix_not_original :
  match_sp "sp." = true
  /\ clean_species_name (Some "Onthophagus Onthophagus sp.") (Some "Onthophagus")
     = Returns (None, None, Some "Onthophagus sp.")
  /\ strip "Onthophagus Onthophagus sp." <> "Onthophagus sp.".
Proof. split; [reflexivity | split; [vm_compute; reflexivity | discriminate]]. Qed.

(** ** Empty and blank species *)

Lemma blank_species_plain_genus (s : string) (gv : option string) :
  strip s = "" -> genus_plain gv = true ->
  clean_species_name (Some s) gv = Returns all_absent.
Proof.
  intros Hs Hplain. rewrite (clean_species_name_plain s gv Hplain).
  destruct (s =? ""); [reflexivity|].
  now rewrite Hs, working_string_empty.
Qed.

(** C8: an absent or empty species gives all-absent for every genus
    argument; a species of whitespace only reaches the genus pattern, and
    with the genus "?" the call raises instead of returning all-absent. *)
Theorem blank_species_and_bad_genus (gv : option string) :
  clean_species_name None gv = Returns all_absent
  /\ clean_species_name (Some "") gv = Returns all_absent
  /\ strip " " = ""
  /\ clean_species_name (Some " ") (Some "?") = Raises.
Proof. repeat split. Qed.

(** ** The doubled genus *)

(** C4: the genus text is pasted into the pattern unescaped: with the
    genus "Onthophag.s" the species string does not start with the genus
    twice, and yet one word is removed and a binomial comes out, where the
    string left alone has no epithet. *)
Theorem doubled_genus_removed_without_exact_match :
  doubled_genus "Onthophag.s" "Onthophagus Onthophagus incensus" = false
  /\ remove_doubled_genus (Some "Onthophag.s") "Onthophagus Onthophagus incensus"
     = Returns "Onthophagus incensus"
  /\ clean_species_name (Some "Onthophagus Onthophagus incensus") (Some "Onthophag.s")
     = Returns (Some "Onthophagus incensus", None, None)
  /\ parse_name (Some "Onthophag.s") "Onthophagus Onthophagus incensus"
     = (None, None, Some "Onthophagus Onthophagus incensus").
Proof. repeat split; vm_compute; reflexivity. Qed.

(** With a plain genus word the step does what the comment of lines 51-52
    says: it fires exactly on genus, whitespace, genus, whitespace, and
    then removes the first genus and the whitespace after it. *)
Lemma doubled_genus_plain (g s : string) :
  g <> "" -> plain (strip g) = true -> strip g <> "" ->
  (forall w1 w2 x,
      spaces w1 = true -> spaces w2 = true ->
      strip s = strip g ++ w1 ++ strip g ++ w2 ++ x ->
      remove_doubled_genus (Some g) (strip s) = Returns (strip g ++ w2 ++ x))
  /\ ((forall w1 w2 x,
         spaces w1 = true -> spaces w2 = true ->
         strip s <> strip g ++ w1 ++ strip g ++ w2 ++ x) ->
      remove_doubled_genus (Some g) (strip s) = Returns (strip s)).
Proof.
  intros Hg Hplain Hne.
  assert (Hgiven : genus_given (Some g) = true) by (destruct g; [congruence | reflexivity]).
  assert (Hws : word_start (strip g) = true)
    by (destruct (strip_word_start g); [contradiction | assumption]).
  assert (Hrem : remove_doubled_genus (Some g) (strip s)
                 = Returns (dedouble (strip g) (strip s)))
    by (apply (remove_doubled_genus_plain (Some g)); auto using strip_word_start).
  rewrite Hrem. split.
  - intros w1 w2 x H1 H2 ->. f_equal. now apply dedouble_doubled.
  - intros Hno. f_equal. apply dedouble_not_doubled.
    destruct (doubled_genus (strip g) (strip s)) eqn:E; [|reflexivity].
    apply (doubled_genus_iff _ _ Hws) in E as (w1 & w2 & x & H1 & H2 & E).
    now destruct (Hno w1 w2 x H1 H2).
Qed.

(** ** Returning, raising *)




(** ** Running the classifier on its own binomial *)

Lemma az_not_space (c : ascii) : Char.is_az c = true -> Char.isspace c = false.
Proof. each_char c; intros H; first [discriminate H | reflexivity]. Qed.

Lemma upper_not_space (c : ascii) : Char.isupper c = true -> Char.isspace c = false.
Proof. each_char c; intros H; first [discriminate H | reflexivity]. Qed.

Lemma az_eq_nocase (p c : ascii) :
  Char.is_az c = true -> Char.eq_nocase p c = true -> c = p.
Proof.
  intros Haz. unfold Char.eq_nocase, Char.lower.
  assert (Hup : Char.isupper c = false)
    by (revert Haz; each_char c; intros H; first [discriminate H | reflexivity]).
  rewrite Hup, orb_diag. apply Ascii.eqb_eq.
Qed.

Lemma az_lower (c : ascii) : Char.is_az c = true -> Char.lower c = c.
Proof.
  intros Haz. unfold Char.lower.
  assert (Hup : Char.isupper c = false)
    by (revert Haz; each_char c; intros H; first [discriminate H | reflexivity]).
  now rewrite Hup.
Qed.

Lemma az_not_mark (c : ascii) :
  Char.is_az c = true ->
  Ascii.eqb c "." = false /\ Ascii.eqb c "_" = false /\ Ascii.eqb c "010" = false.
Proof. each_char c; intros H; first [discriminate H | now repeat split]. Qed.

Lemma lowercase_run_az (e canon tail : string) :
  lowercase_run e = (canon, tail) -> all_chars Char.is_az canon = true.
Proof.
  revert canon tail. induction e as [|c e IH]; intros canon tail; simpl.
  - now intros [= <- _].
  - destruct (Char.is_az c) eqn:E.
    + destruct (lowercase_run e) as [run tl]. intros [= <- _].
      simpl. rewrite E. now apply (IH run tl).
    + now intros [= <- _].
Qed.

Lemma lowercase_run_all_az (c : string) :
  all_chars Char.is_az c = true -> lowercase_run c = (c, "").
Proof.
  induction c as [|x c IH]; simpl; [reflexivity|].
  intros H. apply andb_true_iff in H as [Hx Hc]. now rewrite Hx, (IH Hc).
Qed.

Lemma all_az_no_space (c : string) :
  all_chars Char.is_az c = true -> no_space c = true.
Proof.
  unfold no_space. induction c as [|x c IH]; simpl; [reflexivity|].
  intros H. apply andb_true_iff in H as [Hx Hc].
  now rewrite (az_not_space x Hx), (IH Hc).
Qed.

Lemma all_az_lower (c : string) : all_chars Char.is_az c = true -> lower c = c.
Proof.
  induction c as [|x c IH]; simpl; [reflexivity|].
  intros H. apply andb_true_iff in H as [Hx Hc]. now rewrite (az_lower x Hx), (IH Hc).
Qed.

Lemma all_az_at_end (r : string) :
  all_chars Char.is_az r = true -> at_end r = true -> r = "".
Proof.
  destruct r as [|x r]; [reflexivity|]. simpl. intros H.
  apply andb_true_iff in H as [Hx _].
  destruct (az_not_mark x Hx) as (_ & _ & Hnl).
  destruct r; [now rewrite Hnl | discriminate].
Qed.

(** Among words of lowercase letters only "sp" is a placeholder. *)
Lemma all_az_placeholder (c : string) :
  all_chars Char.is_az c = true -> placeholder c = true -> c = "sp".
Proof.
  intros Haz. unfold placeholder. intros H.
  apply orb_true_iff in H as [H|H]; [apply orb_true_iff in H as [H|H]|].
  - destruct c as [|a [|b r]]; try discriminate. simpl in Haz, H.
    apply andb_true_iff in Haz as [Ha Haz]. apply andb_true_iff in Haz as [Hb Hr].
    apply andb_true_iff in H as [H Hend]. apply andb_true_iff in H as [Hs Hp].
    rewrite (az_eq_nocase _ _ Ha Hs), (az_eq_nocase _ _ Hb Hp). do 2 f_equal.
    apply orb_true_iff in Hend as [Hend|Hend]; [now apply all_az_at_end|].
    destruct r as [|x r]; [reflexivity|]. simpl in Hr.
    apply andb_true_iff in Hr as [Hx _].
    destruct (az_not_mark x Hx) as (Hdot & _ & _).
    revert Hend Hdot. clear. each_char x; intros; discriminate.
  - destruct c as [|a [|b [|x r]]]; try discriminate. simpl in Haz, H.
    apply andb_true_iff in Haz as [_ Haz]. apply andb_true_iff in Haz as [_ Haz].
    apply andb_true_iff in Haz as [Hx _].
    destruct (az_not_mark x Hx) as (Hdot & Hund & _).
    rewrite Hdot, Hund, !andb_false_r in H. discriminate.
  - unfold is_qualifier in H. rewrite (all_az_lower c Haz) in H.
    apply orb_true_iff in H as [H|H]; apply String.eqb_eq in H; subst c;
      discriminate Haz.
Qed.

Lemma space_count_app (a b : string) :
  space_count (a ++ b) = space_count a + space_count b.
Proof. induction a as [|x a IH]; simpl; [reflexivity | rewrite IH; lia]. Qed.

Lemma space_count_no_space (s : string) :
  no_space s = true <-> space_count s = 0.
Proof.
  unfold no_space. induction s as [|x s IH]; simpl; [tauto|].
  destruct (Char.isspace x); simpl; [split; [discriminate | lia] | exact IH].
Qed.

Lemma rstrip_word (c : string) : no_space c = true -> rstrip c = c.
Proof.
  unfold no_space. induction c as [|x c IH]; simpl; [reflexivity|].
  intros H. apply andb_true_iff in H as [Hx Hc]. apply negb_true_iff in Hx.
  rewrite (IH Hc), Hx. now destruct c.
Qed.

Lemma rstrip_app_word (a c : string) :
  nonempty c = true -> no_space c = true -> rstrip (a ++ c) = a ++ c.
Proof.
  intros Hne Hc. induction a as [|x a IH]; simpl; [now apply rstrip_word|].
  rewrite IH. destruct (a ++ c) eqn:E; [|reflexivity].
  destruct a; simpl in E; [subst c|]; discriminate.
Qed.

Lemma split_from_word (t : string) :
  no_space t = true ->
  forall cur rest, split_from cur (t ++ rest) = split_from (cur ++ t) rest.
Proof.
  unfold no_space. induction t as [|x t IH]; simpl; intros H cur rest.
  - now rewrite append_nil_r.
  - apply andb_true_iff in H as [Hx Ht]. apply negb_true_iff in Hx.
    rewrite Hx, (IH Ht), append_assoc. reflexivity.
Qed.

Lemma split_two_words (a c : string) :
  nonempty a = true -> no_space a = true ->
  nonempty c = true -> no_space c = true ->
  split (a ++ " " ++ c) = [a; c].
Proof.
  intros Ha Hsa Hc Hsc. unfold split.
  rewrite (split_from_word a Hsa). simpl. rewrite Ha.
  rewrite <- (append_nil_r c) at 1. rewrite (split_from_word c Hsc).
  simpl. now rewrite Hc.
Qed.

(** A returned binomial is a genus part, a space and a non-empty word of
    lowercase letters. *)
Lemma binomial_shape (sv gv : option string) (b : string) (t x : option string) :
  clean_species_name sv gv = Returns (Some b, t, x) ->
  exists gp canon, b = gp ++ " " ++ canon
    /\ nonempty canon = true /\ all_chars Char.is_az canon = true.
Proof.
  intros H. apply clean_species_name_returns in H as [H|(s & w & _ & _ & _ & H)];
    [discriminate H|].
  destruct (parse_name_cases gv w)
    as [[_ E]|[[_ E]|(gp & e & after & canon & tail & _ & _ & Hrun & Hc & E)]];
    rewrite E in H; try discriminate H.
  exists gp, canon. repeat split.
  - pose proof (binomial_of_build gp canon tail after) as Hb.
    rewrite <- H in Hb. simpl in Hb. now injection Hb.
  - exact Hc.
  - exact (lowercase_run_az e canon tail Hrun).
Qed.

(** C2 (amended): when a call returns a binomial and no suffix, and the
    binomial starts with an uppercase letter, has one whitespace character
    only and its second word is not the placeholder "sp", the call on that
    binomial with no genus argument returns it unchanged, with trinomial
    and suffix absent. *)
Theorem rerun_on_binomial (sv gv : option string) (b : string) (t : option string) :
  clean_species_name sv gv = Returns (Some b, t, None) ->
  first_isupper b = true ->
  space_count b = 1 ->
  nth 1 (split b) "" <> "sp" ->
  clean_species_name (Some b) None = Returns (Some b, None, None).
Proof.
  intros H Hup Hcount Hsp.
  apply binomial_shape in H as (gp & canon & -> & Hc & Haz).
  pose proof (all_az_no_space canon Haz) as Hcs.
  assert (Hgp : nonempty gp = true /\ first_isupper gp = true).
  { destruct gp as [|x gp]; [discriminate Hup | now split]. }
  destruct Hgp as [Hgne Hgup].
  assert (Hgs : no_space gp = true).
  { apply space_count_no_space. rewrite !space_count_app in Hcount.
    simpl in Hcount. lia. }
  assert (Hws : word_start (gp ++ " " ++ canon) = true).
  { destruct gp as [|x gp]; [discriminate|]. simpl in *.
    now rewrite (upper_not_space x Hgup). }
  assert (Hstrip : strip (gp ++ " " ++ canon) = gp ++ " " ++ canon).
  { unfold strip. rewrite (lstrip_word_start_id _ Hws).
    rewrite <- append_assoc. rewrite rstrip_app_word; auto. }
  pose proof (split_two_words gp canon Hgne Hgs Hc Hcs) as Hsplit.
  assert (Hph : placeholder canon = false).
  { destruct (placeholder canon) eqn:E; [|reflexivity].
    rewrite Hsplit in Hsp. simpl in Hsp.
    now destruct (Hsp (all_az_placeholder canon Haz E)). }
  rewrite (clean_species_name_parse _ None (gp ++ " " ++ canon)).
  - f_equal.
    rewrite (parse_name_build None _ gp canon canon "" []); auto.
    + rewrite Hsplit. unfold resolve_genus. now rewrite Hgup.
    + now apply lowercase_run_all_az.
  - apply eqb_empty_false. destruct gp; discriminate.
  - now rewrite Hstrip.
Qed.

Lemma rerun_on_binomial_witness :
  clean_species_name (Some "Onthophagus Onthophagus incensus") (Some "Onthophagus")
  = Returns (Some "Onthophagus incensus", None, None)
  /\ clean_species_name (Some "Onthophagus incensus") None
     = Returns (Some "Onthophagus incensus", None, None).
Proof.
  assert (H : clean_species_name (Some "Onthophagus Onthophagus incensus")
                (Some "Onthophagus")
              = Returns (Some "Onthophagus incensus", None, None))
    by (vm_compute; reflexivity).
  split; [exact H|].
  apply (rerun_on_binomial _ _ _ _ H); [reflexivity | reflexivity | discriminate].
Defined.

(** A binomial and no suffix do not make the second run return the
    binomial: a lowercase genus argument, a glued tail dropped from "sp",
    a genus argument of two words. *)
Lemma rerun_differs :
  (clean_species_name (Some "incensus") (Some "onthophagus")
   = Returns (Some "onthophagus incensus", None, None)
   /\ clean_species_name (Some "onthophagus incensus") None
      = Returns (None, None, Some "onthophagus incensus"))
  /\ (clean_species_name (Some "Onthophagus spX auratus") None
      = Returns (Some "Onthophagus sp", Some "Onthophagus sp auratus", None)
      /\ clean_species_name (Some "Onthophagus sp") None
         = Returns (None, None, Some "Onthophagus sp"))
  /\ (clean_species_name (Some "taurus") (Some "Bos primigenius")
      = Returns (Some "Bos primigenius taurus", None, None)
      /\ clean_species_name (Some "Bos primigenius taurus") None
         = Returns (Some "Bos primigenius", Some "Bos primigenius taurus", None)).
Proof. repeat split; vm_compute; reflexivity. Qed.

(** ** More on [clean_species_name] *)

Lemma app_space_nonempty (a b : string) : a ++ " " ++ b <> "".
Proof. destruct a; discriminate. Qed.

Lemma nonempty_neq (a : string) : nonempty a = true -> a <> "".
Proof. destruct a; [discriminate | discriminate]. Qed.

Lemma build_fields_nonempty (gp canon tail : string) (after : list string)
    (b t x : option string) :
  (forall n, In n after -> nonempty n = true) ->
  build gp canon tail after = (b, t, x) ->
  b <> Some "" /\ t <> Some "" /\ x <> Some "".
Proof.
  intros Hafter. unfold build. destruct after as [|n further].
  - destruct (nonempty tail) eqn:Ht; intros [= <- <- <-]; repeat split;
      try discriminate; intros [= E]; try (now apply app_space_nonempty in E).
    subst tail. discriminate.
  - destruct (match_subspecies n).
    + destruct further as [|m further]; intros [= <- <- <-]; repeat split;
        try discriminate; intros [= E]; try (now apply app_space_nonempty in E).
      assert (Hm : nonempty m = true) by (apply Hafter; simpl; auto).
      pose proof (join_cons_nonempty m further Hm) as Hj.
      rewrite E in Hj. discriminate.
    + match goal with
      | |- (_, _, if nonempty ?u then _ else _) = _ -> _ =>
          destruct (nonempty u) eqn:Hu
      end; intros [= <- <- <-]; repeat split; try discriminate;
        intros [= E]; try (now apply app_space_nonempty in E).
      apply nonempty_neq in Hu. exact (Hu E).
Qed.

(** X1: a field of the returned triple is never the empty string, so the
    truth tests of the callers ([if suffix:], [elif cleaned_trinomial:])
    are tests of presence. *)
Theorem returned_fields_nonempty (sv gv : option string) (b t x : option string) :
  clean_species_name sv gv = Returns (b, t, x) ->
  b <> Some "" /\ t <> Some "" /\ x <> Some "".
Proof.
  intros H. apply clean_species_name_returns in H as [H|(s & w & _ & _ & _ & H)].
  - injection H as -> -> ->. repeat split; discriminate.
  - destruct (parse_name_cases gv w)
      as [[_ E]|[[Hne E]|(gp & e & after & canon & tail & Hres & _ & _ & _ & E)]];
      rewrite E in H.
    + injection H as -> -> ->. repeat split; discriminate.
    + injection H as -> -> ->. repeat split; try discriminate.
      intros [= ->]. now apply Hne.
    + apply (build_fields_nonempty gp canon tail after); [|now symmetry].
      intros n Hn. apply (remaining_nonempty gv w gp n _ Hres). simpl; auto.
Qed.

Lemma returned_fields_nonempty_witness :
  Some "Homo sapiens" <> Some "" /\ None <> Some "" /\ Some "X1 Y2 z" <> Some "".
Proof.
  exact (returned_fields_nonempty (Some " Homo sapiensX1   Y2 z ") None _ _ _ eq_refl).
Defined.

(** Every word of [split] is free of whitespace. *)
Lemma split_from_no_space (s : string) :
  forall cur t, no_space cur = true -> In t (split_from cur s) -> no_space t = true.
Proof.
  induction s as [|c s IH]; intros cur t Hcur; simpl.
  - destruct (nonempty cur); simpl; [intros [<-|[]]; exact Hcur | intros []].
  - destruct (Char.isspace c) eqn:Hc.
    + destruct (nonempty cur); simpl.
      * intros [<-|H]; [exact Hcur | now apply (IH "")].
      * now apply (IH "").
    + apply IH. unfold no_space in *. clear IH.
      induction cur as [|d cur IHc]; simpl in *; [now rewrite Hc|].
      apply andb_true_iff in Hcur as [Hd Hcur]. now rewrite Hd, IHc.
Qed.

Lemma split_no_space (s t : string) : In t (split s) -> no_space t = true.
Proof. now apply split_from_no_space. Qed.

(** X2: a returned binomial is a genus part, one space and a non-empty
    word of lowercase letters a-z; the genus part is the trimmed genus
    argument or a single word that starts with an uppercase letter. *)
Theorem binomial_is_genus_and_lowercase_word (sv gv : option string) (b : string)
    (t x : option string) :
  clean_species_name sv gv = Returns (Some b, t, x) ->
  exists gp e,
    b = gp ++ " " ++ e
    /\ nonempty e = true /\ all_chars Char.is_az e = true
    /\ (gp = genus_text gv \/ (first_isupper gp = true /\ no_space gp = true)).
Proof.
  intros H. apply clean_species_name_returns in H as [H|(s & w & _ & _ & _ & H)];
    [discriminate H|].
  destruct (parse_name_cases gv w)
    as [[_ E]|[[_ E]|(gp & e & after & canon & tail & Hres & _ & Hrun & Hc & E)]];
    rewrite E in H; try discriminate H.
  exists gp, canon. repeat split.
  - pose proof (binomial_of_build gp canon tail after) as Hb.
    rewrite <- H in Hb. simpl in Hb. now injection Hb.
  - exact Hc.
  - exact (lowercase_run_az e canon tail Hrun).
  - unfold resolve_genus in Hres.
    destruct (split w) as [|p0 rest] eqn:Hs; [discriminate|].
    destruct (first_isupper p0) eqn:Hup.
    + injection Hres as <- _. right. split; [exact Hup|].
      apply (split_no_space w). rewrite Hs. simpl; auto.
    + destruct (genus_given gv); [|discriminate]. injection Hres as <- _. now left.
Qed.

Lemma binomial_is_genus_and_lowercase_word_witness :
  exists gp e,
    "onthophagus incensus" = gp ++ " " ++ e
    /\ nonempty e = true /\ all_chars Char.is_az e = true
    /\ (gp = genus_text (Some " onthophagus ")
        \/ (first_isupper gp = true /\ no_space gp = true)).
Proof.
  apply (binomial_is_genus_and_lowercase_word
           (Some "incensus12") (Some " onthophagus ") _ None (Some "12")).
  vm_compute. reflexivity.
Defined.

Lemma rstrip_idempotent (s : string) : rstrip (rstrip s) = rstrip s.
Proof.
  induction s as [|c s IH]; [reflexivity|]. simpl.
  destruct (rstrip s) as [|d r] eqn:E.
  - destruct (Char.isspace c) eqn:Hc; [reflexivity|]. simpl. now rewrite Hc.
  - simpl (rstrip (String c (String d r))). fold (rstrip (String d r)).
    change (match rstrip (String d r) with
            | "" => if Char.isspace c then "" else String c ""
            | String a s0 => String c (String a s0)
            end = String c (String d r)).
    now rewrite IH.
Qed.

Lemma strip_idempotent (s : string) : strip (strip s) = strip s.
Proof.
  destruct (strip_word_start s) as [E|H]; [now rewrite E|].
  unfold strip at 1. rewrite (lstrip_word_start_id _ H).
  unfold strip. apply rstrip_idempotent.
Qed.

(** The genus argument acts through [genus_given] and [genus_text] only. *)
Lemma clean_species_name_genus_ext (sv gv1 gv2 : option string) :
  genus_given gv1 = genus_given gv2 ->
  genus_text gv1 = genus_text gv2 ->
  clean_species_name sv gv1 = clean_species_name sv gv2.
Proof.
  intros Hg Ht. unfold clean_species_name, remove_doubled_genus, parse_name,
    resolve_genus. now rewrite Hg, Ht.
Qed.

(** X3: whitespace around the two arguments does not matter: a species
    that is not blank gives the same outcome as its trimmed text, with any
    genus argument, and a genus argument that is not blank can be trimmed
    as well. *)
Theorem surrounding_whitespace_ignored (s g : string) (gv : option string) :
  nonempty (strip s) = true ->
  nonempty (strip g) = true ->
  clean_species_name (Some s) gv = clean_species_name (Some (strip s)) gv
  /\ clean_species_name (Some s) (Some g)
     = clean_species_name (Some (strip s)) (Some (strip g)).
Proof.
  intros Hs Hg.
  assert (H1 : (s =? "") = false).
  { apply String.eqb_neq. intros ->. discriminate Hs. }
  assert (H2 : (strip s =? "") = false).
  { apply String.eqb_neq. intros E. rewrite E in Hs. discriminate Hs. }
  assert (Htrim : forall gv', clean_species_name (Some s) gv'
                              = clean_species_name (Some (strip s)) gv').
  { intros gv'. unfold clean_species_name. rewrite strip_idempotent.
    now rewrite H1, H2. }
  split; [apply Htrim|].
  rewrite Htrim. apply clean_species_name_genus_ext.
  - simpl. rewrite Hg. destruct g; [discriminate Hg | reflexivity].
  - simpl. now rewrite strip_idempotent.
Qed.

Lemma surrounding_whitespace_ignored_witness :
  clean_species_name (Some "  Bos  taurus ") None
  = clean_species_name (Some "Bos  taurus") None
  /\ clean_species_name (Some "  Bos  taurus ") (Some " Bos ")
     = clean_species_name (Some "Bos  taurus") (Some "Bos").
Proof.
  exact (surrounding_whitespace_ignored "  Bos  taurus " " Bos " None
           eq_refl eq_refl).
Defined.

Lemma split_from_head (s : string) :
  forall cur, nonempty cur = true ->
    exists x rest, split_from cur s = (cur ++ x) :: rest.
Proof.
  induction s as [|c s IH]; intros cur Hcur; simpl.
  - rewrite Hcur. exists "", []. now rewrite append_nil_r.
  - destruct (Char.isspace c).
    + rewrite Hcur. exists "", (split_from "" s). now rewrite append_nil_r.
    + destruct (IH (cur ++ String c "")) as (x & rest & E).
      { destruct cur; reflexivity. }
      exists (String c x), rest. rewrite E, append_assoc. reflexivity.
Qed.

(** The first word of a string that starts with an uppercase letter
    starts with it. *)
Lemma split_first_isupper (w : string) :
  first_isupper w = true ->
  exists p0 rest, split w = p0 :: rest /\ first_isupper p0 = true.
Proof.
  destruct w as [|c w]; [discriminate|]. simpl. intros Hc.
  unfold split. simpl. rewrite (upper_not_space c Hc).
  destruct (split_from_head w (String c "") eq_refl) as (x & rest & E).
  exists (String c x), rest. split; [exact E | exact Hc].
Qed.

(** X4: the genus argument has no part in the result when the trimmed
    species starts with an uppercase letter and does not start with the
    (plain) genus text twice: the outcome is that of the call without
    genus. *)
Theorem genus_ignored_after_capital (s : string) (gv : option string) :
  first_isupper (strip s) = true ->
  genus_plain gv = true ->
  doubled_genus (genus_text gv) (strip s) = false ->
  clean_species_name (Some s) gv = clean_species_name (Some s) None.
Proof.
  intros Hup Hplain Hd.
  rewrite (clean_species_name_plain s gv Hplain).
  rewrite (clean_species_name_plain s None eq_refl).
  destruct (s =? ""); [reflexivity|]. f_equal.
  rewrite (working_string_not_doubled gv _ Hd).
  change (working_string None (strip s)) with (strip s).
  destruct (split_first_isupper _ Hup) as (p0 & rest & Hs & Hp0).
  unfold parse_name, resolve_genus. now rewrite Hs, Hp0.
Qed.

Lemma genus_ignored_after_capital_witness :
  clean_species_name (Some "Bos taurus X1") (Some "Taurotragus")
  = clean_species_name (Some "Bos taurus X1") None.
Proof.
  apply genus_ignored_after_capital; reflexivity.
Defined.

Lemma parse_name_split (gv : option string) (w1 w2 : string) :
  split w1 = split w2 ->
  binomial_of (parse_name gv w1) = None \/ parse_name gv w1 = parse_name gv w2.
Proof.
  intros H. unfold parse_name. rewrite <- H.
  destruct (split w1) as [|p0 rest]; [now right|].
  destruct (resolve_genus gv (p0 :: rest)) as [[gp [|e after]]|]; [now left | | now left].
  destruct (match_sp e); [now left|].
  destruct (match_sp_code e); [now left|].
  destruct (is_qualifier e); [now left|].
  destruct (lowercase_run e) as [canon tail].
  destruct (nonempty canon); [now right | now left].
Qed.

(** X5: when a binomial is found, only the words of the species string
    count, not the whitespace between them: with no genus argument, two
    species strings with the same words and a binomial for the first give
    the same result. *)
Theorem spacing_between_words_ignored (s1 s2 b : string) (t x : option string) :
  split (strip s1) = split (strip s2) ->
  clean_species_name (Some s1) None = Returns (Some b, t, x) ->
  clean_species_name (Some s2) None = Returns (Some b, t, x).
Proof.
  intros Hsplit H.
  rewrite (clean_species_name_plain s1 None eq_refl) in H.
  rewrite (clean_species_name_plain s2 None eq_refl).
  change (working_string None (strip s1)) with (strip s1) in H.
  change (working_string None (strip s2)) with (strip s2).
  destruct (s1 =? "") eqn:E1; [discriminate H|].
  injection H as H.
  assert (Hs2 : (s2 =? "") = false).
  { apply String.eqb_neq. intros ->. simpl in Hsplit.
    unfold parse_name in H. rewrite Hsplit in H. discriminate H. }
  rewrite Hs2. f_equal.
  destruct (parse_name_split None _ _ Hsplit) as [Hb|<-]; [|exact H].
  rewrite H in Hb. discriminate Hb.
Qed.

Lemma spacing_between_words_ignored_witness :
  clean_species_name (Some "Bos   taurus  X1") None
  = Returns (Some "Bos taurus", None, Some "X1").
Proof.
  apply (spacing_between_words_ignored "Bos taurus X1" "Bos   taurus  X1");
    reflexivity.
Defined.

Lemma lowercase_run_app (e canon tail : string) :
  lowercase_run e = (canon, tail) -> e = canon ++ tail.
Proof.
  revert canon tail. induction e as [|c e IH]; intros canon tail; simpl.
  - now intros [= <- <-].
  - destruct (Char.is_az c).
    + destruct (lowercase_run e) as [run tl]. intros [= <- <-].
      simpl. now rewrite (IH run tl).
    + now intros [= <- <-].
Qed.

(** X6: with no genus argument, a result with a binomial and neither
    trinomial nor suffix comes from a species of exactly two words, and the
    binomial is these two words with one space between them. *)
Theorem clean_binomial_is_two_words (s b : string) :
  clean_species_name (Some s) None = Returns (Some b, None, None) ->
  exists g e, split (strip s) = [g; e] /\ b = g ++ " " ++ e.
Proof.
  intros H. rewrite (clean_species_name_plain s None eq_refl) in H.
  change (working_string None (strip s)) with (strip s) in H.
  destruct (s =? ""); [discriminate H|]. injection H as H.
  destruct (parse_name_cases None (strip s))
    as [[_ E]|[[_ E]|(gp & e & after & canon & tail & Hres & _ & Hrun & Hc & E)]];
    rewrite E in H; try discriminate H.
  unfold resolve_genus in Hres.
  destruct (split (strip s)) as [|p0 rest] eqn:Hs; [discriminate|].
  destruct (first_isupper p0); [|discriminate]. injection Hres as <- ->.
  assert (Hn : forall n, In n after -> nonempty n = true).
  { intros n Hn. apply (split_nonempty (strip s)). rewrite Hs. simpl; auto. }
  unfold build in H. destruct after as [|n further].
  - destruct (nonempty tail) eqn:Ht; [discriminate H|].
    apply nonempty_false in Ht. subst tail.
    apply lowercase_run_app in Hrun. rewrite append_nil_r in Hrun. subst e.
    exists p0, canon. split; [reflexivity|]. now injection H.
  - destruct (match_subspecies n); [destruct further; discriminate H|].
    exfalso. revert H.
    match goal with
    | |- (_, _, if nonempty ?u then _ else _) = _ -> _ =>
        assert (Hu : nonempty u = true)
    end.
    { destruct (nonempty tail) eqn:Ht; [now apply nonempty_app_l|].
      apply join_cons_nonempty, Hn. simpl; auto. }
    rewrite Hu. discriminate.
Qed.

Lemma clean_binomial_is_two_words_witness :
  exists g e, split (strip " Bos   taurus ") = [g; e] /\ "Bos taurus" = g ++ " " ++ e.
Proof.
  apply (clean_binomial_is_two_words " Bos   taurus " "Bos taurus"). reflexivity.
Defined.

(** ** The analysis of the species column *)

Module MetadataFacts.
Import Metadata.

Lemma add_example_length (cap n : nat) (l : list string) (x : string) :
  List.length l = Nat.min n cap ->
  List.length (add_example cap l x) = Nat.min (S n) cap.
Proof.
  intros H. unfold add_example.
  destruct (List.length l <? cap)%nat eqn:E.
  - apply Nat.ltb_lt in E. rewrite length_app. cbn [List.length]. lia.
  - apply Nat.ltb_ge in E. lia.
Qed.

Lemma of_py_done {A : Type} (m : py A) (a : A) :
  of_py m = Done a -> m = Returns a.
Proof. destruct m; simpl; intros H; now inversion H. Qed.

Lemma of_py_fails {A : Type} (m : py A) (e : exn) :
  of_py m = Fails e -> e = ReError.
Proof. destruct m; simpl; intros H; now inversion H. Qed.

(** One row of the analysis: one more in [total] and in one of the five
    classes; the example lists stay within their bounds. *)
Lemma tally_step (arrow : string) (res res' : results) (r : row) :
  tally arrow res r = Done res' ->
  total res' = S (total res)
  /\ empty res' + sp_variants res' + with_suffix res' + trinomials res' + clean res'
     = S (empty res + sp_variants res + with_suffix res + trinomials res + clean res)
  /\ empty res' = empty res + (if is_missing (species r) then 1 else 0)
  /\ (List.length (ex_sp_variants res) = Nat.min (sp_variants res) 10 ->
      List.length (ex_sp_variants res') = Nat.min (sp_variants res') 10)
  /\ (List.length (ex_with_suffix res) = Nat.min (with_suffix res) 10 ->
      List.length (ex_with_suffix res') = Nat.min (with_suffix res') 10)
  /\ (List.length (ex_trinomials res) = Nat.min (trinomials res) 5 ->
      List.length (ex_trinomials res') = Nat.min (trinomials res') 5)
  /\ (List.length (ex_clean res) = Nat.min (clean res) 5 ->
      List.length (ex_clean res') = Nat.min (clean res') 5).
Proof.
  unfold tally. destruct (is_missing (species r)).
  - intros [= <-]. cbn [total empty sp_variants with_suffix trinomials clean
                         ex_sp_variants ex_with_suffix ex_trinomials ex_clean].
    repeat split; auto; lia.
  - destruct (of_py (clean_species_name (species r) (genus r)))
      as [[[b t] x]|e|]; try discriminate.
    destruct b as [b|].
    + destruct (truthy x); [|destruct (truthy t)];
        intros [= <-];
        cbn [total empty sp_variants with_suffix trinomials clean
             ex_sp_variants ex_with_suffix ex_trinomials ex_clean];
        repeat split; auto using add_example_length; lia.
    + intros [= <-];
        cbn [total empty sp_variants with_suffix trinomials clean
             ex_sp_variants ex_with_suffix ex_trinomials ex_clean];
        repeat split; auto using add_example_length; lia.
Qed.

Lemma tally_rows_steps (arrow : string) (df : list row) :
  forall res res',
    tally_rows arrow res df = Done res' ->
    total res' = total res + List.length df
    /\ empty res' + sp_variants res' + with_suffix res' + trinomials res' + clean res'
       = empty res + sp_variants res + with_suffix res + trinomials res + clean res
         + List.length df
    /\ empty res'
       = empty res + List.length (filter (fun r => is_missing (species r)) df)
    /\ (List.length (ex_sp_variants res) = Nat.min (sp_variants res) 10 ->
        List.length (ex_sp_variants res') = Nat.min (sp_variants res') 10)
    /\ (List.length (ex_with_suffix res) = Nat.min (with_suffix res) 10 ->
        List.length (ex_with_suffix res') = Nat.min (with_suffix res') 10)
    /\ (List.length (ex_trinomials res) = Nat.min (trinomials res) 5 ->
        List.length (ex_trinomials res') = Nat.min (trinomials res') 5)
    /\ (List.length (ex_clean res) = Nat.min (clean res) 5 ->
        List.length (ex_clean res') = Nat.min (clean res') 5).
Proof.
  induction df as [|r df IH]; intros res res'; cbn [tally_rows].
  - intros [= <-]. cbn [List.length filter].
    split; [lia|]. split; [lia|]. split; [lia|]. repeat split; auto.
  - destruct (tally arrow res r) as [res1|e|] eqn:E; try discriminate.
    intros H. apply tally_step in E as (E1 & E2 & E3 & E4 & E5 & E6 & E7).
    apply IH in H as (H1 & H2 & H3 & H4 & H5 & H6 & H7).
    cbn [List.length filter].
    split; [clear - E1 H1; lia|]. split; [clear - E2 H2; lia|].
    split; [clear - E3 H3; destruct (is_missing (species r));
            cbn [List.length]; lia|].
    repeat split; auto.
Qed.

Lemma analyze_done (arrow : string) (df : list row) (res : results) :
  analyze_species_column arrow df = Done res ->
  tally_rows arrow no_results df = Done res /\ total res <> 0.
Proof.
  unfold analyze_species_column.
  destruct (tally_rows arrow no_results df) as [res1|e|]; try discriminate.
  destruct (total res1 =? 0)%nat eqn:E; [discriminate|].
  intros [= <-]. split; [reflexivity | now apply Nat.eqb_neq].
Qed.

(** X7: the analysis counts every row once: [total] is the number of
    rows and the sum of the five classes, and [empty] is the number of
    rows whose species is missing or empty. *)
Theorem analysis_counts_every_row_once (arrow : string) (df : list row)
    (res : results) :
  analyze_species_column arrow df = Done res ->
  total res = List.length df
  /\ total res
     = empty res + sp_variants res + with_suffix res + trinomials res + clean res
  /\ empty res = List.length (filter (fun r => is_missing (species r)) df).
Proof.
  intros H. apply analyze_done in H as [H _].
  apply tally_rows_steps in H as (H1 & H2 & H3 & _). simpl in *.
  repeat split; lia.
Qed.

Lemma analysis_counts_every_row_once_witness :
  let res :=
    mkResults 3 1 1 0 0 1 ["Bos sp."] [] [] ["Bos taurus"] in
  total res = 3 /\ total res = 1 + 1 + 0 + 0 + 1 /\ empty res = 1.
Proof.
  exact (analysis_counts_every_row_once "->"
           [mkRow (Some "Bos taurus") None None None;
            mkRow None (Some "Bos") None None;
            mkRow (Some "Bos sp.") None None None] _ eq_refl).
Defined.

(** X8: each list of examples has as many entries as its class has rows,
    up to 10 for the invalid names and the names with suffix and up to 5
    for the trinomials and the clean binomials. *)
Theorem analysis_examples_bounded (arrow : string) (df : list row) (res : results) :
  analyze_species_column arrow df = Done res ->
  List.length (ex_sp_variants res) = Nat.min (sp_variants res) 10
  /\ List.length (ex_with_suffix res) = Nat.min (with_suffix res) 10
  /\ List.length (ex_trinomials res) = Nat.min (trinomials res) 5
  /\ List.length (ex_clean res) = Nat.min (clean res) 5.
Proof.
  intros H. apply analyze_done in H as [H _].
  apply tally_rows_steps in H as (_ & _ & _ & H4 & H5 & H6 & H7).
  repeat split; auto.
Qed.

Lemma analysis_examples_bounded_witness :
  let res :=
    mkResults 3 1 1 0 0 1 ["Bos sp."] [] [] ["Bos taurus"] in
  List.length (ex_sp_variants res) = Nat.min (sp_variants res) 10
  /\ List.length (ex_with_suffix res) = Nat.min (with_suffix res) 10
  /\ List.length (ex_trinomials res) = Nat.min (trinomials res) 5
  /\ List.length (ex_clean res) = Nat.min (clean res) 5.
Proof.
  exact (analysis_examples_bounded "->"
           [mkRow (Some "Bos taurus") None None None;
            mkRow None (Some "Bos") None None;
            mkRow (Some "Bos sp.") None None None] _ eq_refl).
Defined.

Lemma tally_fails (arrow : string) (res : results) (r : row) (e : exn) :
  tally arrow res r = Fails e -> e = ReError.
Proof.
  unfold tally. destruct (is_missing (species r)); [discriminate|].
  destruct (of_py (clean_species_name (species r) (genus r)))
    as [[[b t] x]|e'|] eqn:E; try discriminate.
  - destruct b; [destruct (truthy x); [|destruct (truthy t)]|]; discriminate.
  - intros [= <-]. now apply of_py_fails in E.
Qed.

Lemma tally_rows_fails (arrow : string) (df : list row) :
  forall res e, tally_rows arrow res df = Fails e -> e = ReError.
Proof.
  induction df as [|r df IH]; intros res e; simpl; [discriminate|].
  destruct (tally arrow res r) as [res1|e'|] eqn:E; try discriminate.
  - apply IH.
  - intros [= <-]. now apply tally_fails in E.
Qed.

(** After the guard on the species column the analysis ends in a
    division by zero exactly when there is no row. *)
Lemma analyze_rows_zero_division (arrow : string) (df : list row) :
  analyze_species_column arrow df = Fails ZeroDivisionError <-> df = [].
Proof.
  split.
  - destruct df as [|r df]; [reflexivity|]. unfold analyze_species_column.
    destruct (tally_rows arrow no_results (r :: df)) as [res|e|] eqn:E;
      try discriminate.
    + apply tally_rows_steps in E as (E1 & _). simpl in E1.
      destruct (total res =? 0)%nat eqn:Z; [|discriminate].
      apply Nat.eqb_eq in Z. lia.
    + intros [= ->]. apply tally_rows_fails in E. discriminate.
  - intros ->. reflexivity.
Qed.

(** X9: the analysis of a frame ends in a division by zero exactly when
    the frame has a species column and no rows (the report divides the
    counts by [total]); without a species column it returns [None], rows
    or not. *)
Theorem analysis_divides_by_zero_iff_no_rows (arrow : string) (f : frame) :
  (analyze_frame arrow f = Fails ZeroDivisionError
   <-> has_species f = true /\ rows f = [])
  /\ (has_species f = false -> analyze_frame arrow f = Done None).
Proof.
  unfold analyze_frame. split; [|now intros ->].
  destruct (has_species f).
  - split.
    + intros H. split; [reflexivity|].
      apply (analyze_rows_zero_division arrow).
      destruct (analyze_species_column arrow (rows f)); now inversion H.
    + intros [_ H]. now rewrite (proj2 (analyze_rows_zero_division arrow _) H).
  - split; [discriminate | intros [H _]; discriminate H].
Qed.

Lemma analysis_divides_by_zero_iff_no_rows_witness :
  analyze_frame "->" (mkFrame true true false []) = Fails ZeroDivisionError
  /\ analyze_frame "->" (mkFrame false true false []) = Done None.
Proof.
  split.
  - apply (proj1 (analysis_divides_by_zero_iff_no_rows "->"
                    (mkFrame true true false []))).
    split; reflexivity.
  - apply (proj2 (analysis_divides_by_zero_iff_no_rows "->"
                    (mkFrame false true false []))).
    reflexivity.
Defined.

(** ** The cleaning of the frame *)

Lemma clean_species_name_plain_done (sv gv : option string) :
  genus_plain gv = true ->
  exists r, of_py (clean_species_name sv gv) = Done r.
Proof.
  intros Hplain. destruct sv as [s|]; [|now exists all_absent].
  rewrite (clean_species_name_plain s gv Hplain). simpl. eauto.
Qed.

Lemma tally_plain (arrow : string) (res : results) (r : row) :
  genus_plain (genus r) = true -> exists res', tally arrow res r = Done res'.
Proof.
  intros Hplain. unfold tally. destruct (is_missing (species r)); [eauto|].
  destruct (clean_species_name_plain_done (species r) (genus r) Hplain)
    as ([[b t] x] & ->).
  destruct b; [destruct (truthy x); [|destruct (truthy t)]|]; eauto.
Qed.

Lemma tally_rows_plain (arrow : string) (df : list row) :
  Forall (fun r => genus_plain (genus r) = true) df ->
  forall res, exists res', tally_rows arrow res df = Done res'.
Proof.
  induction 1 as [|r df Hr _ IH]; intros res; simpl; [eauto|].
  destruct (tally_plain arrow res r Hr) as (res1 & ->). apply IH.
Qed.

Lemma clean_row_plain (c : counts) (r : row) :
  genus_plain (genus r) = true -> exists c' r', clean_row c r = Done (c', r').
Proof.
  intros Hplain. unfold clean_row. destruct (is_missing (species r)); [eauto|].
  destruct (clean_species_name_plain_done (species r) (genus r) Hplain)
    as ([[b t] x] & ->). eauto.
Qed.

Lemma clean_rows_plain (df : list row) :
  Forall (fun r => genus_plain (genus r) = true) df ->
  forall c, exists c' df', clean_rows c df = Done (c', df').
Proof.
  induction 1 as [|r df Hr _ IH]; intros c; simpl; [eauto|].
  destruct (clean_row_plain c r Hr) as (c1 & r1 & ->).
  destruct (IH c1) as (c2 & df2 & ->). eauto.
Qed.

Lemma plain_rows_run (arrow : string) (df : list row) :
  Forall (fun r => genus_plain (genus r) = true) df ->
  (exists c df', clean_metadata df = Done (c, df'))
  /\ (df <> [] -> exists res, analyze_species_column arrow df = Done res).
Proof.
  intros Hplain. split; [now apply clean_rows_plain|].
  intros Hne. unfold analyze_species_column.
  destruct (tally_rows_plain arrow df Hplain no_results) as (res & E).
  rewrite E. pose proof (tally_rows_steps arrow df _ _ E) as (E1 & _).
  destruct (total res =? 0)%nat eqn:Z; [|eauto].
  apply Nat.eqb_eq in Z. destruct df; [contradiction | simpl in E1; lia].
Qed.

(** When both columns take text the loop is the loop of [clean_rows]. *)
Lemma clean_row_in_taken (c : counts) (r : row) :
  clean_row_in true true c r = clean_row c r.
Proof.
  unfold clean_row_in. destruct (is_missing (species r)) eqn:M.
  - unfold clean_row. now rewrite M.
  - destruct (of_py (clean_species_name (species r) (genus r)))
      as [[[b t] x]|e|] eqn:E.
    + now rewrite !andb_false_r.
    + unfold clean_row. now rewrite M, E.
    + unfold clean_row. now rewrite M, E.
Qed.

Lemma clean_rows_in_taken (df : list row) :
  forall c, clean_rows_in true true c df = clean_rows c df.
Proof.
  induction df as [|r df IH]; intros c; simpl; [reflexivity|].
  rewrite clean_row_in_taken.
  destruct (clean_row c r) as [[c1 r1]|e|]; [|reflexivity ..].
  now rewrite IH.
Qed.

(** A loop that ends with refusing columns ends the same with every
    write taken. *)
Lemma clean_row_in_done (a b : bool) (c : counts) (r : row) (out : counts * row) :
  clean_row_in a b c r = Done out -> clean_row c r = Done out.
Proof.
  unfold clean_row_in. destruct (is_missing (species r)) eqn:M.
  - unfold clean_row. now rewrite M.
  - destruct (of_py (clean_species_name (species r) (genus r)))
      as [[[bi t] x]|e|]; try discriminate.
    destruct (truthy x && negb a); [discriminate|].
    destruct (truthy t && negb b); [discriminate | trivial].
Qed.

Lemma clean_rows_in_done (a b : bool) (df : list row) :
  forall c out, clean_rows_in a b c df = Done out -> clean_rows c df = Done out.
Proof.
  induction df as [|r df IH]; intros c out; simpl; [trivial|].
  destruct (clean_row_in a b c r) as [[c1 r1]|e|] eqn:E; try discriminate.
  rewrite (clean_row_in_done _ _ _ _ _ E).
  destruct (clean_rows_in a b c1 df) as [[c2 rest1]|e|] eqn:E2; try discriminate.
  now rewrite (IH _ _ E2).
Qed.

(** What [clean_metadata_frame] returns is what [clean_metadata] returns
    on the rows with the added columns. *)
Lemma clean_metadata_frame_done (f : frame) (out : counts * list row) :
  clean_metadata_frame f = Done (Some out) ->
  has_species f = true /\ clean_metadata (added_columns f) = Done out.
Proof.
  unfold clean_metadata_frame, clean_metadata.
  destruct (has_species f); [|discriminate].
  cbv zeta.
  match goal with
  | |- match ?m with _ => _ end = _ -> _ => destruct m as [o|e|] eqn:E
  end; try discriminate.
  intros [= ->]. split; [reflexivity|]. exact (clean_rows_in_done _ _ _ _ _ E).
Qed.

Lemma takes_text_added (f : frame) :
  takes_text (has_species_suffix f) (map species_suffix (added_columns f))
  = takes_text (has_species_suffix f) (map species_suffix (rows f))
  /\ takes_text (has_subspecies f) (map subspecies (added_columns f))
     = takes_text (has_subspecies f) (map subspecies (rows f)).
Proof.
  unfold takes_text, added_columns. rewrite !map_map. cbn [species_suffix subspecies].
  split.
  - destruct (has_species_suffix f); [reflexivity | reflexivity].
  - destruct (has_subspecies f); [reflexivity | reflexivity].
Qed.

Lemma added_columns_genus (f : frame) :
  Forall (fun r => genus_plain (genus r) = true) (rows f) ->
  Forall (fun r => genus_plain (genus r) = true) (added_columns f).
Proof.
  unfold added_columns. induction 1 as [|r df Hr _ IH]; simpl; constructor; auto.
Qed.

(** X10: on a frame with a species column whose genus cells are all
    missing or free of special pattern characters, and whose subspecies
    and species_suffix columns are each absent from the file or hold text
    in some row, the cleaning returns a frame, and the analysis returns
    its counts if there is a row. *)
Theorem plain_genus_column_runs (arrow : string) (f : frame) :
  has_species f = true ->
  Forall (fun r => genus_plain (genus r) = true) (rows f) ->
  takes_text (has_species_suffix f) (map species_suffix (rows f)) = true ->
  takes_text (has_subspecies f) (map subspecies (rows f)) = true ->
  (exists c df', clean_metadata_frame f = Done (Some (c, df')))
  /\ (rows f <> [] -> exists res, analyze_frame arrow f = Done (Some res)).
Proof.
  intros Hsp Hplain Hsuf Hsub. split.
  - unfold clean_metadata_frame. rewrite Hsp. cbv zeta.
    destruct (takes_text_added f) as [-> ->]. rewrite Hsuf, Hsub.
    rewrite clean_rows_in_taken.
    destruct (proj1 (plain_rows_run arrow _ (added_columns_genus f Hplain)))
      as (c & df' & E).
    unfold clean_metadata in E. rewrite E. eauto.
  - intros Hne. unfold analyze_frame. rewrite Hsp.
    destruct (proj2 (plain_rows_run arrow _ Hplain) Hne) as (res & ->). eauto.
Qed.

Lemma plain_genus_column_runs_witness :
  (exists c df',
      clean_metadata_frame
        (mkFrame true false true
           [mkRow (Some "Bos Bos taurus") (Some "Bos") None (Some "X1");
            mkRow (Some "Bos sp.") None None None])
      = Done (Some (c, df')))
  /\ exists res,
       analyze_frame "->"
         (mkFrame true false true
            [mkRow (Some "Bos Bos taurus") (Some "Bos") None (Some "X1");
             mkRow (Some "Bos sp.") None None None])
       = Done (Some res).
Proof.
  destruct (plain_genus_column_runs "->"
              (mkFrame true false true
                 [mkRow (Some "Bos Bos taurus") (Some "Bos") None (Some "X1");
                  mkRow (Some "Bos sp.") None None None])) as [H1 H2].
  - reflexivity.
  - repeat constructor.
  - reflexivity.
  - reflexivity.
  - split; [exact H1 | apply H2; discriminate].
Defined.

(** A species_suffix column of the file with no text refuses the first
    suffix written to it. *)
Example empty_suffix_column_refuses_text :
  clean_metadata_frame
    (mkFrame true false true [mkRow (Some "Bos sp.") None None None])
  = Fails TypeError.
Proof. reflexivity. Qed.

Lemma clean_row_kept (c c1 : counts) (r r1 : row) :
  clean_row c r = Done (c1, r1) -> kept r r1.
Proof.
  unfold clean_row, kept. destruct (is_missing (species r)) eqn:M.
  - intros [= _ <-]. repeat split; auto.
  - destruct (of_py (clean_species_name (species r) (genus r)))
      as [[[b t] x]|e|]; try discriminate.
    intros [= _ <-]. cbn [genus subspecies species_suffix species].
    repeat split; try discriminate.
    + intros H. now destruct (truthy t) eqn:T.
    + intros H. now destruct (truthy x) eqn:T.
Qed.

(** X11: the cleaning returns the rows in their order, each with its
    genus cell as it was; a row whose species is missing or empty comes
    back unchanged; a subspecies or species_suffix cell that held text
    still holds text (it is kept or overwritten, never emptied). *)
Theorem cleaning_keeps_rows (df df' : list row) (c : counts) :
  clean_metadata df = Done (c, df') -> Forall2 kept df df'.
Proof.
  unfold clean_metadata. generalize no_counts as c0. revert df' c.
  induction df as [|r df IH]; intros df' c c0; simpl.
  - intros [= _ <-]. constructor.
  - destruct (clean_row c0 r) as [[c1 r1]|e|] eqn:E; try discriminate.
    destruct (clean_rows c1 df) as [[c2 rest1]|e|] eqn:E2; try discriminate.
    intros [= _ <-]. constructor; [exact (clean_row_kept _ _ _ _ E) | eauto].
Qed.

Lemma cleaning_keeps_rows_witness :
  Forall2 kept
    [mkRow (Some "Bos sp.") (Some "Bos") (Some "Bos taurus indicus") None;
     mkRow None (Some "Bos") None (Some "X1")]
    [mkRow None (Some "Bos") (Some "Bos taurus indicus") (Some "Bos sp.");
     mkRow None (Some "Bos") None (Some "X1")].
Proof.
  apply (cleaning_keeps_rows _ _ (mkCounts 1 1 0 1)). vm_compute. reflexivity.
Defined.

Lemma clean_row_species (c c1 : counts) (r r1 : row) :
  clean_row c r = Done (c1, r1) -> binomial_cell (species r1).
Proof.
  unfold clean_row. destruct (is_missing (species r)) eqn:M.
  - intros [= _ <-]. unfold is_missing in M.
    destruct (species r) as [s|]; simpl; [|exact I].
    left. now apply String.eqb_eq.
  - destruct (of_py (clean_species_name (species r) (genus r)))
      as [[[b t] x]|e|] eqn:E; try discriminate.
    intros [= _ <-]. cbn [species]. destruct b as [b|]; simpl; [|exact I].
    right. apply of_py_done in E. exact (binomial_shape _ _ _ _ _ E).
Qed.

(** X12: after the cleaning every cell of the species column is missing,
    empty, or a genus part, one space and a non-empty word of lowercase
    letters a-z. *)
Theorem cleaned_species_column (df df' : list row) (c : counts) :
  clean_metadata df = Done (c, df') ->
  Forall (fun r => binomial_cell (species r)) df'.
Proof.
  unfold clean_metadata. generalize no_counts as c0. revert df' c.
  induction df as [|r df IH]; intros df' c c0; simpl.
  - intros [= _ <-]. constructor.
  - destruct (clean_row c0 r) as [[c1 r1]|e|] eqn:E; try discriminate.
    destruct (clean_rows c1 df) as [[c2 rest1]|e|] eqn:E2; try discriminate.
    intros [= _ <-]. constructor; [exact (clean_row_species _ _ _ _ E) | eauto].
Qed.

Lemma cleaned_species_column_witness :
  Forall (fun r => binomial_cell (species r))
    [mkRow (Some "Bos taurus") None None (Some "X1 y2");
     mkRow None (Some "Bos") None (Some "Bos sp._13");
     mkRow (Some "") None None None].
Proof.
  apply (cleaned_species_column
           [mkRow (Some "Bos taurusX1 y2") None None None;
            mkRow (Some "Bos sp._13") (Some "Bos") None None;
            mkRow (Some "") None None None] _ (mkCounts 2 2 0 1)).
  vm_compute. reflexivity.
Defined.

(** One row in the analysis and in the cleaning. *)
Lemma tally_clean_row (arrow : string) (res res1 : results) (c c1 : counts)
    (r r1 : row) :
  tally arrow res r = Done res1 ->
  clean_row c r = Done (c1, r1) ->
  suffix_count c1 + with_suffix res + invalidated_count c
  = suffix_count c + with_suffix res1 + invalidated_count c1
  /\ trinomials res1 + trinomial_count c <= trinomials res + trinomial_count c1
  /\ invalidated_count c1 + sp_variants res <= invalidated_count c + sp_variants res1
  /\ cleaned_count c1 + empty res1 + total res
     <= cleaned_count c + empty res + total res1.
Proof.
  unfold tally, clean_row. destruct (is_missing (species r)).
  - intros [= <-] [= <- _]. simpl. lia.
  - destruct (of_py (clean_species_name (species r) (genus r)))
      as [[[b t] x]|e|]; try discriminate.
    destruct b as [b|].
    + destruct (truthy x); [|destruct (truthy t)];
        intros [= <-] [= <- _];
        cbn [total empty sp_variants with_suffix trinomials clean
             cleaned_count suffix_count trinomial_count invalidated_count];
        repeat split; try lia;
        repeat match goal with |- context [if ?u then _ else _] => destruct u end;
        lia.
    + intros [= <-] [= <- _];
        cbn [total empty sp_variants with_suffix trinomials clean
             cleaned_count suffix_count trinomial_count invalidated_count];
        repeat split; try lia;
        repeat match goal with |- context [if ?u then _ else _] => destruct u end;
        lia.
Qed.

Lemma tally_clean_rows (arrow : string) (df : list row) :
  forall res res' c c' df',
    tally_rows arrow res df = Done res' ->
    clean_rows c df = Done (c', df') ->
    suffix_count c' + with_suffix res + invalidated_count c
    = suffix_count c + with_suffix res' + invalidated_count c'
    /\ trinomials res' + trinomial_count c <= trinomials res + trinomial_count c'
    /\ invalidated_count c' + sp_variants res <= invalidated_count c + sp_variants res'
    /\ cleaned_count c' + empty res' + total res
       <= cleaned_count c + empty res + total res'.
Proof.
  induction df as [|r df IH]; intros res res' c c' df'; simpl.
  - intros [= <-] [= <- _]. lia.
  - destruct (tally arrow res r) as [res1|e|] eqn:E; try discriminate.
    destruct (clean_row c r) as [[c1 r1]|e|] eqn:Ec; try discriminate.
    destruct (clean_rows c1 df) as [[c2 rest1]|e|] eqn:E2; try discriminate.
    intros H [= <- _].
    pose proof (tally_clean_row _ _ _ _ _ _ _ E Ec) as (A1 & A2 & A3 & A4).
    pose proof (IH _ _ _ _ _ H E2) as (B1 & B2 & B3 & B4). lia.
Qed.

(** X13: the analysis foretells the counters of the cleaning on the
    same frame: the suffixes extracted are the names with suffix and the
    invalidated names; every name the analysis counts as trinomial gets a
    subspecies; the invalidated names are among the invalid ones; at most
    the rows that are not empty are counted as modified. *)
Theorem analysis_foretells_cleaning (arrow : string) (df df' : list row)
    (res : results) (c : counts) :
  analyze_species_column arrow df = Done res ->
  clean_metadata df = Done (c, df') ->
  suffix_count c = with_suffix res + invalidated_count c
  /\ trinomials res <= trinomial_count c
  /\ invalidated_count c <= sp_variants res
  /\ cleaned_count c + empty res <= total res.
Proof.
  intros Ha Hc. apply analyze_done in Ha as [Ha _].
  pose proof (tally_clean_rows arrow df _ _ _ _ _ Ha Hc) as (H1 & H2 & H3 & H4).
  simpl in *. lia.
Qed.

Lemma analysis_foretells_cleaning_witness :
  2 = 1 + 1 /\ 1 <= 1 /\ 1 <= 1 /\ 3 + 1 <= 4.
Proof.
  exact (analysis_foretells_cleaning "->"
           [mkRow (Some "Bos taurusX1 y2") None None None;
            mkRow (Some "Bos sp._13") (Some "Bos") None None;
            mkRow (Some "Bos taurus indicus") None None None;
            mkRow None None None None]
           [mkRow (Some "Bos taurus") None None (Some "X1 y2");
            mkRow None (Some "Bos") None (Some "Bos sp._13");
            mkRow (Some "Bos taurus") None (Some "Bos taurus indicus") None;
            mkRow None None None None]
           (mkResults 4 1 1 1 1 0 ["Bos sp._13"]
              ["Bos taurusX1 y2 -> binomial='Bos taurus' + suffix='X1 y2'"]
              ["Bos taurus indicus -> binomial='Bos taurus', trinomial='Bos taurus indicus'"]
              [])
           (mkCounts 3 2 1 1) eq_refl eq_refl).
Defined.

Lemma clean_row_invalid_name (c c1 : counts) (r r1 : row) :
  clean_row c r = Done (c1, r1) -> invalid_name_moved r r1.
Proof.
  unfold clean_row, invalid_name_moved. intros H s Hs Hne Hplain.
  assert (E : (s =? "") = false).
  { apply String.eqb_neq. intros ->. discriminate Hne. }
  rewrite Hs in H. cbn [is_missing] in H. rewrite E in H.
  rewrite (clean_species_name_plain s (genus r) Hplain), E in H.
  cbn [of_py] in H.
  set (w := working_string (genus r) (strip s)) in *.
  assert (Hw : word_start w = true).
  { apply working_string_word_start. now apply nonempty_strip_word_start. }
  assert (Hgiven : genus_given (genus r) = false -> w = strip s).
  { intros G. unfold w, working_string. now rewrite G. }
  destruct (parse_name_cases (genus r) w)
    as [[Hnil _]|[[_ P]|(gp & e & after & canon & tail & _ & _ & _ & _ & P)]].
  - now apply split_word_start in Hw.
  - rewrite P in H. injection H as _ <-. cbn [species species_suffix truthy].
    intros _. rewrite (word_start_nonempty w Hw).
    split; [reflexivity | intros G; now rewrite <- (Hgiven G)].
  - destruct (parse_name (genus r) w) as [[b t] x] eqn:Q.
    injection H as _ <-. cbn [species]. intros ->.
    pose proof (binomial_of_build gp canon tail after) as Hb.
    rewrite <- P in Hb. discriminate Hb.
Qed.

(** X14: a name that the cleaning finds invalid is not lost: when the
    species cell of a row holds text that is not blank and comes back
    missing, the species_suffix cell of that row holds that text, trimmed
    (and without its first genus if the genus cell is doubled at its
    start), for every row whose genus cell is missing or plain. *)
Theorem invalid_names_move_to_suffix (df df' : list row) (c : counts) :
  clean_metadata df = Done (c, df') -> Forall2 invalid_name_moved df df'.
Proof.
  unfold clean_metadata. generalize no_counts as c0. revert df' c.
  induction df as [|r df IH]; intros df' c c0; simpl.
  - intros [= _ <-]. constructor.
  - destruct (clean_row c0 r) as [[c1 r1]|e|] eqn:E; try discriminate.
    destruct (clean_rows c1 df) as [[c2 rest1]|e|] eqn:E2; try discriminate.
    intros [= _ <-]. constructor; [exact (clean_row_invalid_name _ _ _ _ E) | eauto].
Qed.

Lemma invalid_names_move_to_suffix_witness :
  Forall2 invalid_name_moved
    [mkRow (Some " Bos Bos sp. 12 ") (Some "Bos") None None]
    [mkRow None (Some "Bos") None (Some "Bos sp. 12")]
  /\ working_string (Some "Bos") (strip " Bos Bos sp. 12 ") = "Bos sp. 12".
Proof.
  split; [|reflexivity].
  apply (invalid_names_move_to_suffix _ _ (mkCounts 1 1 0 1)).
  vm_compute. reflexivity.
Defined.

End MetadataFacts.
